(** * rapina/parsers: the FII detail store (fiidb.go)

    A shallow embedding of [parsers/fiidb.go] and the properties of its three
    operations, [StoreFIIDetails], [CNPJ] and [SelectFIIDetails].

    Go strings are byte sequences: they are embedded as [string] (a list of
    8-bit [ascii]), so that [String.length] is Go's [len].  The database
    behind the [*sql.DB] handle is an explicit state that every operation
    threads; a call that would dereference a nil handle is a [Panic]. *)

From Stdlib Require Import List String Ascii Bool Arith NArith Lia.
Import ListNotations.
Open Scope string_scope.

(* ===================================================================== *)
(** * Go runtime: strings *)
(* ===================================================================== *)

Module strings.

(** [unicode.IsSpace]: the code points with the Unicode White_Space
    property.  In Latin-1 these are '\t', '\n', '\v', '\f', '\r', ' ',
    U+0085 (NEL) and U+00A0 (NBSP). *)
Definition White_Space : list N :=
  [ 0x09; 0x0A; 0x0B; 0x0C; 0x0D; 0x20; 0x85; 0xA0;
    0x1680;
    0x2000; 0x2001; 0x2002; 0x2003; 0x2004; 0x2005;
    0x2006; 0x2007; 0x2008; 0x2009; 0x200A;
    0x2028; 0x2029; 0x202F; 0x205F; 0x3000 ]%N.

(** [utf8.EncodeRune] for the Basic Multilingual Plane: the one valid
    UTF-8 encoding of a code point below U+10000. *)
Definition EncodeRune (r : N) : list N :=
  (if r <? 0x80 then [r]
   else if r <? 0x800 then
     [N.lor 0xC0 (N.shiftr r 6); N.lor 0x80 (N.land r 0x3F)]
   else
     [N.lor 0xE0 (N.shiftr r 12);
      N.lor 0x80 (N.land (N.shiftr r 6) 0x3F);
      N.lor 0x80 (N.land r 0x3F)])%N.

Definition space_encodings : list (list N) := map EncodeRune White_Space.

Fixpoint strip_prefix (p : list N) (s : list ascii) : option (list ascii) :=
  match p, s with
  | [], _ => Some s
  | k :: p', c :: s' =>
      if (N_of_ascii c =? k)%N then strip_prefix p' s' else None
  | _ :: _, [] => None
  end.

Fixpoint strip_any (ps : list (list N)) (s : list ascii)
  : option (list ascii) :=
  match ps with
  | [] => None
  | p :: ps' =>
      match strip_prefix p s with
      | Some r => Some r
      | None => strip_any ps' s
      end
  end.

(** One white-space rune at the front of [s], decoded as UTF-8: the bytes
    after it.  Invalid UTF-8 decodes to U+FFFD, which is no space. *)
Definition leading_space (s : list ascii) : option (list ascii) :=
  strip_any space_encodings s.

(** One white-space rune at the end of the string whose reversal is [s]
    ([utf8.DecodeLastRuneInString]): the reversed bytes before it. *)
Definition trailing_space (s : list ascii) : option (list ascii) :=
  strip_any (map (@rev N) space_encodings) s.

Fixpoint drop_while (step : list ascii -> option (list ascii))
         (fuel : nat) (s : list ascii) : list ascii :=
  match fuel with
  | O => s
  | S fuel' =>
      match step s with
      | Some r => drop_while step fuel' r
      | None => s
      end
  end.

(** [strings.TrimLeftFunc(s, unicode.IsSpace)] *)
Definition TrimLeft (s : list ascii) : list ascii :=
  drop_while leading_space (List.length s) s.

(** [strings.TrimRightFunc(s, unicode.IsSpace)] *)
Definition TrimRight (s : list ascii) : list ascii :=
  rev (drop_while trailing_space (List.length s) (rev s)).

(** [strings.TrimSpace]: [s] without its leading and trailing white
    space, as defined by Unicode. *)
Definition TrimSpace (s : string) : string :=
  string_of_list_ascii (TrimRight (TrimLeft (list_ascii_of_string s))).

(** A string that neither starts nor ends with a white-space rune. *)
Definition stripped (s : string) : Prop :=
  leading_space (list_ascii_of_string s) = None
  /\ trailing_space (rev (list_ascii_of_string s)) = None.

(** A string of white space only: white-space runes from end to end. *)
Inductive blank : list ascii -> Prop :=
| blank_nil : blank []
| blank_cons (s r : list ascii) :
    leading_space s = Some r -> blank r -> blank s.

End strings.

(* ===================================================================== *)
(** * Go runtime: errors *)
(* ===================================================================== *)

(** Go [error] values.  Errors made by [errors.New] are compared by
    identity, so each package-level error variable is a constructor of its
    own.  A Go value of interface type [error] is an [option error], [None]
    being nil. *)
Inductive error : Type :=
| ErrDBUnset                                  (* errors.New("database not set") *)
| ErrNotFound                                 (* errors.New("not found") *)
| sql_ErrNoRows                               (* database/sql: ErrNoRows *)
| fmt_Errorf (msg : string)                   (* fmt.Errorf, formatted *)
| errors_Wrap (cause : error) (msg : string)  (* pkg/errors: Wrap *)
| json_error (msg : string)                   (* an error of encoding/json *)
| driver_error (msg : string).                (* any other error of the engine *)

Fixpoint error_eqb (a b : error) : bool :=
  match a, b with
  | ErrDBUnset, ErrDBUnset => true
  | ErrNotFound, ErrNotFound => true
  | sql_ErrNoRows, sql_ErrNoRows => true
  | fmt_Errorf m, fmt_Errorf n => m =? n
  | errors_Wrap c m, errors_Wrap d n => error_eqb c d && (m =? n)
  | json_error m, json_error n => m =? n
  | driver_error m, driver_error n => m =? n
  | _, _ => false
  end.

(** [err.Error()]: the message of an error. *)
Fixpoint Error (e : error) : string :=
  match e with
  | ErrDBUnset => "database not set"
  | ErrNotFound => "not found"
  | sql_ErrNoRows => "sql: no rows in result set"
  | fmt_Errorf m => m
  | errors_Wrap c m => m ++ ": " ++ Error c
  | json_error m => m
  | driver_error m => m
  end.

(* ===================================================================== *)
(** * The record FIIDetails *)
(* ===================================================================== *)

(** A value decoded into an [interface{}] field; nil is its zero value.
    Numbers are kept as their literal. *)
#[warnings="-register-all"]
Inductive any : Type :=
| any_nil
| any_bool (b : bool)
| any_number (literal : string)
| any_string (s : string)
| any_array (l : list any)
| any_object (l : list (string * any)).

Module DetailFund.
Record t : Type := mk {
  Acronym : string;
  TradingName : string;
  TradingCode : string;
  TradingCodeOthers : string;
  CNPJ : string;
  Classification : string;
  WebSite : string;
  FundAddress : string;
  FundPhoneNumberDDD : string;
  FundPhoneNumber : string;
  FundPhoneNumberFax : string;
  PositionManager : string;
  ManagerName : string;
  CompanyAddress : string;
  CompanyPhoneNumberDDD : string;
  CompanyPhoneNumber : string;
  CompanyPhoneNumberFax : string;
  CompanyEmail : string;
  CompanyName : string;
  QuotaCount : string;
  QuotaDateApproved : string;
  Codes : option (list string);   (* []string; [None] is the nil slice *)
  CodesOther : any;
  Segment : any
}.

(** The zero value of the struct. *)
Definition zero : t :=
  mk "" "" "" "" "" "" "" "" "" "" "" "" "" "" "" "" "" "" "" "" ""
     None any_nil any_nil.

Definition set_CNPJ (v : string) (x : t) : t :=
  mk (Acronym x) (TradingName x) (TradingCode x) (TradingCodeOthers x)
     v (Classification x) (WebSite x) (FundAddress x)
     (FundPhoneNumberDDD x) (FundPhoneNumber x) (FundPhoneNumberFax x)
     (PositionManager x) (ManagerName x) (CompanyAddress x)
     (CompanyPhoneNumberDDD x) (CompanyPhoneNumber x)
     (CompanyPhoneNumberFax x) (CompanyEmail x) (CompanyName x)
     (QuotaCount x) (QuotaDateApproved x) (Codes x) (CodesOther x)
     (Segment x).

Definition set_Acronym (v : string) (x : t) : t :=
  mk v (TradingName x) (TradingCode x) (TradingCodeOthers x)
     (CNPJ x) (Classification x) (WebSite x) (FundAddress x)
     (FundPhoneNumberDDD x) (FundPhoneNumber x) (FundPhoneNumberFax x)
     (PositionManager x) (ManagerName x) (CompanyAddress x)
     (CompanyPhoneNumberDDD x) (CompanyPhoneNumber x)
     (CompanyPhoneNumberFax x) (CompanyEmail x) (CompanyName x)
     (QuotaCount x) (QuotaDateApproved x) (Codes x) (CodesOther x)
     (Segment x).

Definition set_TradingCode (v : string) (x : t) : t :=
  mk (Acronym x) (TradingName x) v (TradingCodeOthers x)
     (CNPJ x) (Classification x) (WebSite x) (FundAddress x)
     (FundPhoneNumberDDD x) (FundPhoneNumber x) (FundPhoneNumberFax x)
     (PositionManager x) (ManagerName x) (CompanyAddress x)
     (CompanyPhoneNumberDDD x) (CompanyPhoneNumber x)
     (CompanyPhoneNumberFax x) (CompanyEmail x) (CompanyName x)
     (QuotaCount x) (QuotaDateApproved x) (Codes x) (CodesOther x)
     (Segment x).
End DetailFund.

Module ShareHolder.
Record t : Type := mk {
  ShareHolderName : string;
  ShareHolderAddress : string;
  ShareHolderPhoneNumberDDD : string;
  ShareHolderPhoneNumber : string;
  ShareHolderFaxNumber : string;
  ShareHolderEmail : string
}.

Definition zero : t := mk "" "" "" "" "" "".
End ShareHolder.

(** FIIDetails details (ID field: DetailFund.CNPJ) *)
Record FIIDetails : Type := mkFIIDetails {
  DetailFund : DetailFund.t;
  ShareHolder : ShareHolder.t
}.

(** [var fiiDetails FIIDetails] *)
Definition zero_FIIDetails : FIIDetails :=
  mkFIIDetails DetailFund.zero ShareHolder.zero.

Definition with_DetailFund (f : DetailFund.t -> DetailFund.t)
           (d : FIIDetails) : FIIDetails :=
  mkFIIDetails (f (DetailFund d)) (ShareHolder d).

(** [trimFIIDetails]: the three assignments, in the order of the source. *)
Definition trimFIIDetails (f : FIIDetails) : FIIDetails :=
  let f := with_DetailFund
             (fun x => DetailFund.set_CNPJ
                         (strings.TrimSpace (DetailFund.CNPJ x)) x) f in
  let f := with_DetailFund
             (fun x => DetailFund.set_Acronym
                         (strings.TrimSpace (DetailFund.Acronym x)) x) f in
  let f := with_DetailFund
             (fun x => DetailFund.set_TradingCode
                         (strings.TrimSpace (DetailFund.TradingCode x)) x) f in
  f.

(* ===================================================================== *)
(** * The database behind [*sql.DB] *)
(* ===================================================================== *)

(** A row of the table [fii_details]. *)
Record Row : Type := mkRow {
  cnpj : string;
  acronym : string;
  trading_code : string
}.

(** What reaches the storage engine, in the order of the calls. *)
Inductive IO : Type :=
| io_hasTable (name : string)
| io_createTable (name : string)
| io_Exec (query : string) (args : list string)
| io_QueryRow (query : string) (args : list string).

(** The state of the database the handle points to.  It is shared with the
    caller, who owns the handle, so it is threaded through every call.
    - [fii_details]: the rows of the table in insertion order, [None] while
      the table does not exist;
    - [faults]: what the engine does on its next fallible calls, one entry a
      call: [Some e] makes the call fail with [e] and have no effect, [None]
      (or no entry left) lets it run;
    - [trace]: the calls made so far. *)
Record World : Type := mkWorld {
  fii_details : option (list Row);
  faults : list (option error);
  trace : list IO
}.

(** The result of a call: a value, or a run-time panic. *)
Inductive outcome (A : Type) : Type :=
| Ret (a : A)
| Panic (msg : string).
Arguments Ret {A} a.
Arguments Panic {A} msg.

Definition M (A : Type) : Type := World -> outcome A * World.

Definition ret {A : Type} (a : A) : M A := fun w => (Ret a, w).

Definition bind {A B : Type} (m : M A) (k : A -> M B) : M B :=
  fun w =>
    match m w with
    | (Ret a, w') => k a w'
    | (Panic msg, w') => (Panic msg, w')
    end.

Declare Scope go_scope.
Delimit Scope go_scope with go.
Notation "x <- m ;; k" := (bind m (fun x => k))
  (at level 100, m at next level, right associativity) : go_scope.
Open Scope go_scope.

Definition panic {A : Type} (msg : string) : M A := fun w => (Panic msg, w).

Definition emit (e : IO) : M unit :=
  fun w => (Ret tt, mkWorld (fii_details w) (faults w) (trace w ++ [e])).

(** The engine's verdict on its next fallible call. *)
Definition next_fault : M (option error) :=
  fun w =>
    match faults w with
    | [] => (Ret None, w)
    | f :: fs => (Ret f, mkWorld (fii_details w) fs (trace w))
    end.

Definition get_table : M (option (list Row)) :=
  fun w => (Ret (fii_details w), w).

Definition put_table (t : list Row) : M unit :=
  fun w => (Ret tt, mkWorld (Some t) (faults w) (trace w)).

(** [*sql.DB]: nil, or the pointer to the open database. *)
Inductive sql_DB : Type := the_DB.

(** A method call through the handle: dereferencing nil panics. *)
Definition deref (db : option sql_DB) : M unit :=
  match db with
  | None => panic "invalid memory address or nil pointer dereference"
  | Some _ => ret tt
  end.

(** ** The statements of this package *)

Inductive Column : Type := col_cnpj | col_acronym | col_trading_code.

Inductive Stmt : Type :=
| InsertOrIgnore                (* INSERT OR IGNORE INTO fii_details ... *)
| SelectCnpj (key : Column)     (* SELECT cnpj FROM fii_details WHERE key=? *)
| SelectRow (key : Column).     (* SELECT cnpj, acronym, trading_code ... WHERE key=? *)

(** The engine recognises the five statements the package sends. *)
Definition prepare (query : string) : option Stmt :=
  if query =? "INSERT OR IGNORE INTO fii_details (cnpj, acronym, trading_code) VALUES (?,?,?)"
  then Some InsertOrIgnore
  else if query =? "SELECT cnpj FROM fii_details WHERE acronym=?"
  then Some (SelectCnpj col_acronym)
  else if query =? "SELECT cnpj FROM fii_details WHERE trading_code=?"
  then Some (SelectCnpj col_trading_code)
  else if query =? "SELECT cnpj, acronym, trading_code FROM fii_details WHERE acronym=?"
  then Some (SelectRow col_acronym)
  else if query =? "SELECT cnpj, acronym, trading_code FROM fii_details WHERE trading_code=?"
  then Some (SelectRow col_trading_code)
  else None.

Definition column (k : Column) (r : Row) : string :=
  match k with
  | col_cnpj => cnpj r
  | col_acronym => acronym r
  | col_trading_code => trading_code r
  end.

(** [WHERE key=?]: the rows whose column equals the argument, byte for
    byte, in the order of the table. *)
Definition where_eq (k : Column) (v : string) (t : list Row) : list Row :=
  filter (fun r => column k r =? v) t.

Definition has_cnpj (c : string) (t : list Row) : bool :=
  existsb (fun r => cnpj r =? c) t.

(** Modelled from the spec: the schema that [createTable] gives the table
    is not under src/.  The spec has one row per fund, "with CNPJ as the
    natural/unique identity", and an insert-or-ignore "keyed on CNPJ
    uniqueness": [INSERT OR IGNORE] skips a row whose cnpj is already in the
    table and appends any other. *)
Definition insert_or_ignore (r : Row) (t : list Row) : list Row :=
  if has_cnpj (cnpj r) t then t else t ++ [r].

Definition no_such_table : error := driver_error "no such table: fii_details".
Definition bad_statement : error := driver_error "unrecognised statement".
Definition bad_arguments : error := driver_error "wrong number of arguments".

(** ** database/sql *)

(** [db.Exec(query, args...)] on a [*sql.DB]; the [sql.Result] is dropped,
    as the caller drops it. *)
Definition DB_Exec (db : option sql_DB) (query : string) (args : list string)
  : M (option error) :=
  _ <- deref db ;;
  _ <- emit (io_Exec query args) ;;
  fault <- next_fault ;;
  match fault with
  | Some e => ret (Some e)
  | None =>
      match prepare query, args with
      | Some InsertOrIgnore, [c; a; t] =>
          tbl <- get_table ;;
          match tbl with
          | None => ret (Some no_such_table)
          | Some rows =>
              _ <- put_table (insert_or_ignore (mkRow c a t) rows) ;;
              ret None
          end
      | Some InsertOrIgnore, _ => ret (Some bad_arguments)
      | _, _ => ret (Some bad_statement)
      end
  end.

(** [*sql.Row]: the error of the query, or its first row if there is one. *)
Inductive sql_Row : Type :=
| row_err (e : error)
| row_first (r : option (list string)).

Definition select (s : Stmt) (r : Row) : list string :=
  match s with
  | SelectCnpj _ => [cnpj r]
  | _ => [cnpj r; acronym r; trading_code r]
  end.

(** [db.QueryRow(query, args...)] on a [*sql.DB]: errors are kept in the
    row until [Scan].  Of the rows that match, the row kept is the first in
    the order of the table, the order of insertion. *)
Definition DB_QueryRow (db : option sql_DB) (query : string)
           (args : list string) : M sql_Row :=
  _ <- deref db ;;
  _ <- emit (io_QueryRow query args) ;;
  fault <- next_fault ;;
  match fault with
  | Some e => ret (row_err e)
  | None =>
      match prepare query, args with
      | Some (SelectCnpj k as s), [v] | Some (SelectRow k as s), [v] =>
          tbl <- get_table ;;
          match tbl with
          | None => ret (row_err no_such_table)
          | Some rows =>
              ret (row_first
                     (option_map (select s) (hd_error (where_eq k v rows))))
          end
      | Some (SelectCnpj _), _ | Some (SelectRow _), _ =>
          ret (row_err bad_arguments)
      | _, _ => ret (row_err bad_statement)
      end
  end.

(** [row.Scan(dest...)] on string destinations: the destinations
    after the call and the error.  The destinations are written only when
    there is a row with as many columns. *)
Definition Row_Scan (row : sql_Row) (dest : list string)
  : list string * option error :=
  match row with
  | row_err e => (dest, Some e)
  | row_first None => (dest, Some sql_ErrNoRows)
  | row_first (Some cols) =>
      if Nat.eqb (List.length cols) (List.length dest) then (cols, None)
      else (dest,
            Some (driver_error
                    "sql: wrong number of destination arguments in Scan"))
  end.

(** ** The package's table helpers *)

(** Modelled from the spec: [hasTable] is not under src/.  The handle
    exposes "a way to check whether a named table exists"; the check has no
    error result. *)
Definition hasTable (db : option sql_DB) (name : string) : M bool :=
  _ <- deref db ;;
  _ <- emit (io_hasTable name) ;;
  tbl <- get_table ;;
  ret ((name =? "fii_details")
       && match tbl with Some _ => true | None => false end).

(** Modelled from the spec: [createTable] is not under src/.  It creates
    the named table "with the minimal schema (cnpj, acronym, trading_code)",
    empty; a failure of the engine is its error.  An existing table is left
    as it is. *)
Definition createTable (db : option sql_DB) (name : string)
  : M (option error) :=
  _ <- deref db ;;
  _ <- emit (io_createTable name) ;;
  fault <- next_fault ;;
  match fault with
  | Some e => ret (Some e)
  | None =>
      if name =? "fii_details" then
        tbl <- get_table ;;
        match tbl with
        | None => _ <- put_table [] ;; ret None
        | Some _ => ret None
        end
      else ret (Some (driver_error ("no schema for table " ++ name)))
  end.

(* ===================================================================== *)
(** * Package parsers: fiidb.go *)
(* ===================================================================== *)

Record FIIStore : Type := mkFIIStore {
  db : option sql_DB
}.

(** NewFIIStore creates a new instace of FII; it accepts a nil db. *)
Definition NewFIIStore (db : option sql_DB) : FIIStore :=
  mkFIIStore db.

(** Go's [len] of a string: its number of bytes. *)
Definition len (s : string) : nat := String.length s.

Section Store.

(** [json.Unmarshal(stream, &v)] of encoding/json, for [v] a
    [FIIDetails]: the value after the call and the error. *)
Variable json_Unmarshal : string -> FIIDetails -> FIIDetails * option error.

Definition StoreFIIDetails (fii : FIIStore) (stream : string)
  : M (option error) :=
  match db fii with
  | None => ret (Some ErrDBUnset)
  | Some _ =>
      has <- hasTable (db fii) "fii_details" ;;
      err <- (if negb has then createTable (db fii) "fii_details"
              else ret None) ;;
      match err with
      | Some e => ret (Some e)
      | None =>
          let fiiDetails := zero_FIIDetails in
          let (fiiDetails, err) := json_Unmarshal stream fiiDetails in
          match err with
          | Some e => ret (Some (errors_Wrap e "json unmarshal"))
          | None =>
              let fiiDetails := trimFIIDetails fiiDetails in
              let x := DetailFund fiiDetails in
              if DetailFund.CNPJ x =? "" then
                ret (Some (fmt_Errorf ("wrong CNPJ: " ++ DetailFund.CNPJ x)))
              else
                let insert := "INSERT OR IGNORE INTO fii_details (cnpj, acronym, trading_code) VALUES (?,?,?)" in
                DB_Exec (db fii) insert
                        [DetailFund.CNPJ x; DetailFund.Acronym x;
                         DetailFund.TradingCode x]
          end
      end
  end.

End Store.

Definition CNPJ (fii : FIIStore) (code : string) : M (string * option error) :=
  match db fii with
  | None => ret ("", Some ErrDBUnset)
  | Some _ =>
      let query :=
        if Nat.eqb (len code) 4 then
          inl "SELECT cnpj FROM fii_details WHERE acronym=?"
        else if Nat.eqb (len code) 6 then
          inl "SELECT cnpj FROM fii_details WHERE trading_code=?"
        else
          inr (fmt_Errorf ("invalid code '" ++ code ++ "'")) in
      match query with
      | inr e => ret ("", Some e)
      | inl query =>
          let cnpj := "" in
          row <- DB_QueryRow (db fii) query [code] ;;
          let (dest, err) := Row_Scan row [cnpj] in
          let cnpj := nth 0 dest "" in
          match err with
          | Some e =>
              if negb (error_eqb e sql_ErrNoRows) then ret ("", Some e)
              else ret (cnpj, None)
          | None => ret (cnpj, None)
          end
      end
  end.

Definition SelectFIIDetails (fii : FIIStore) (code : string)
  : M (option FIIDetails * option error) :=
  match db fii with
  | None => ret (None, Some ErrDBUnset)
  | Some _ =>
      let query :=
        if Nat.eqb (len code) 4 then
          inl "SELECT cnpj, acronym, trading_code FROM fii_details WHERE acronym=?"
        else if Nat.eqb (len code) 6 then
          inl "SELECT cnpj, acronym, trading_code FROM fii_details WHERE trading_code=?"
        else
          inr (fmt_Errorf ("invalid code '" ++ code ++ "'")) in
      match query with
      | inr e => ret (None, Some e)
      | inl query =>
          row <- DB_QueryRow (db fii) query [code] ;;
          let (dest, err) := Row_Scan row [""; ""; ""] in
          let cnpj := nth 0 dest "" in
          let acronym := nth 1 dest "" in
          let tradingCode := nth 2 dest "" in
          match err with
          | Some e => ret (None, Some e)
          | None =>
              let fiiDetail := zero_FIIDetails in
              let fiiDetail :=
                with_DetailFund (DetailFund.set_CNPJ cnpj) fiiDetail in
              let fiiDetail :=
                with_DetailFund (DetailFund.set_Acronym acronym) fiiDetail in
              let fiiDetail :=
                with_DetailFund (DetailFund.set_TradingCode tradingCode)
                                fiiDetail in
              ret (Some fiiDetail, None)
          end
      end
  end.

(* ===================================================================== *)
(** * Worlds and payloads used in the examples *)
(* ===================================================================== *)

(** A database without the table, whose engine does not fail. *)
Definition fresh : World := mkWorld None [] [].

Definition store : FIIStore := NewFIIStore (Some the_DB).
Definition unset : FIIStore := NewFIIStore None.

Definition fund (c a t : string) : FIIDetails :=
  with_DetailFund
    (fun x => DetailFund.set_TradingCode t
                (DetailFund.set_Acronym a (DetailFund.set_CNPJ c x)))
    zero_FIIDetails.

(** A decoder for the examples: it knows five payloads and rejects the
    rest. *)
Definition sample_Unmarshal (stream : string) (v : FIIDetails)
  : FIIDetails * option error :=
  if stream =? "abcd" then (fund "12.345.678/0001-90" "ABCD" "ABCD11", None)
  else if stream =? "abcd-padded" then
    (fund " 12.345.678/0001-90 " " ABCD " " ABCD11 ", None)
  else if stream =? "wxyz" then (fund "12.345.678/0001-90" "WXYZ" "WXYZ11", None)
  else if stream =? "other" then (fund "01.234.567/0001-89" "ABCD" "ABCD11", None)
  else if stream =? "blank" then (fund "   " "EFGH" "EFGH11", None)
  else (v, Some (json_error
                   "invalid character 'x' looking for beginning of value")).

Definition run {A : Type} (m : M A) (w : World) : World := snd (m w).
Definition result {A : Type} (m : M A) (w : World) : outcome A := fst (m w).

(** The rows of the table; none while the table does not exist. *)
Definition rows (w : World) : list Row :=
  match fii_details w with
  | Some t => t
  | None => []
  end.

(** The engine raises no error on the calls to come. *)
Definition healthy (w : World) : Prop := faults w = [].

(** The engine raises no error on its next fallible call. *)
Definition next_call_ok (w : World) : Prop := hd None (faults w) = None.

(** The unique identity of the table: no two rows with one cnpj. *)
Definition unique_cnpj (t : list Row) : Prop := NoDup (map cnpj t).

Definition is_Exec (e : IO) : bool :=
  match e with
  | io_Exec _ _ => true
  | _ => false
  end.

(** The statements executed so far ([db.Exec]). *)
Definition execs (w : World) : list IO := filter is_Exec (trace w).

(** The row a call of StoreFIIDetails sends to the table: the three
    fields, trimmed. *)
Definition trimmed (d : FIIDetails) : Row :=
  mkRow (strings.TrimSpace (DetailFund.CNPJ (DetailFund d)))
        (strings.TrimSpace (DetailFund.Acronym (DetailFund d)))
        (strings.TrimSpace (DetailFund.TradingCode (DetailFund d))).

(** What the engine sees of a call of StoreFIIDetails that reaches the
    insert. *)
Definition calls (w : World) (d : FIIDetails) : list IO :=
  [io_hasTable "fii_details"]
    ++ match fii_details w with
       | Some _ => []
       | None => [io_createTable "fii_details"]
       end
    ++ [io_Exec "INSERT OR IGNORE INTO fii_details (cnpj, acronym, trading_code) VALUES (?,?,?)"
                [cnpj (trimmed d); acronym (trimmed d);
                 trading_code (trimmed d)]].

(** A call to the engine that carries one of the package's constant texts:
    the table name, or one of its five statements; what comes from the input
    travels as arguments only. *)
Definition constant_text (e : IO) : bool :=
  match e with
  | io_hasTable name | io_createTable name => name =? "fii_details"
  | io_Exec query _ =>
      query =? "INSERT OR IGNORE INTO fii_details (cnpj, acronym, trading_code) VALUES (?,?,?)"
  | io_QueryRow query _ =>
      match prepare query with
      | Some (SelectCnpj _) | Some (SelectRow _) => true
      | _ => false
      end
  end.

(** A row as StoreFIIDetails writes it: a CNPJ that is not empty, and no
    white space around any of the three fields. *)
Definition clean_row (r : Row) : Prop :=
  cnpj r <> ""
  /\ strings.stripped (cnpj r)
  /\ strings.stripped (acronym r)
  /\ strings.stripped (trading_code r).

(** A table of clean rows, no two with one cnpj. *)
Definition clean_table (t : list Row) : Prop :=
  unique_cnpj t /\ Forall clean_row t.

(** What SelectFIIDetails answers for a row: the record of its three
    fields. *)
Definition record_of (r : Row) : FIIDetails :=
  fund (cnpj r) (acronym r) (trading_code r).

(** What CNPJ answers where SelectFIIDetails answers [(p, err)]: the CNPJ
    of the record if there is one, and the error unless it is
    sql.ErrNoRows. *)
Definition CNPJ_of_details (r : option FIIDetails * option error)
  : string * option error :=
  (match fst r with
   | Some d => DetailFund.CNPJ (DetailFund d)
   | None => ""
   end,
   match snd r with
   | Some e => if error_eqb e sql_ErrNoRows then None else Some e
   | None => None
   end).

(** A run of StoreFIIDetails over a feed of payloads, one call after the
    other on the same store; the errors are dropped, as a caller that goes
    on with the next payload drops them. *)
Fixpoint store_all
         (json_Unmarshal : string -> FIIDetails -> FIIDetails * option error)
         (fii : FIIStore) (streams : list string) (w : World) : World :=
  match streams with
  | [] => w
  | stream :: rest =>
      store_all json_Unmarshal fii rest
                (run (StoreFIIDetails json_Unmarshal fii stream) w)
  end.

(* ===================================================================== *)
(** * Properties *)
(* ===================================================================== *)

Example TrimSpace_cnpj :
  strings.TrimSpace " 12.345.678/0001-90 " = "12.345.678/0001-90".
Proof. reflexivity. Qed.

Example TrimSpace_blank : strings.TrimSpace "   " = "".
Proof. reflexivity. Qed.

Example TrimSpace_inner : strings.TrimSpace "  A B  " = "A B".
Proof. reflexivity. Qed.

(** ** strings.TrimSpace *)

Lemma strip_prefix_length (p : list N) (s r : list ascii) :
  strings.strip_prefix p s = Some r ->
  List.length s = List.length p + List.length r.
Proof.
  revert s. induction p as [| k p IH]; intros s H; simpl in *.
  - injection H as ->. reflexivity.
  - destruct s as [| c s]; [discriminate |].
    destruct (N_of_ascii c =? k)%N; [| discriminate].
    simpl. rewrite (IH s H). reflexivity.
Qed.

Lemma strip_any_shorter (ps : list (list N)) (s r : list ascii) :
  Forall (fun p => p <> []) ps ->
  strings.strip_any ps s = Some r -> List.length r < List.length s.
Proof.
  induction 1 as [| p ps Hp _ IH]; simpl; [discriminate |].
  destruct (strings.strip_prefix p s) as [r' |] eqn:E.
  - intros H. injection H as ->. apply strip_prefix_length in E.
    destruct p; [congruence | simpl in E; lia].
  - exact IH.
Qed.

Lemma space_encodings_nonempty :
  Forall (fun p : list N => p <> []) strings.space_encodings.
Proof. repeat constructor; discriminate. Qed.

Lemma rev_encodings_nonempty :
  Forall (fun p : list N => p <> []) (map (@rev N) strings.space_encodings).
Proof. repeat constructor; discriminate. Qed.

Lemma leading_space_shorter (s r : list ascii) :
  strings.leading_space s = Some r -> List.length r < List.length s.
Proof. apply strip_any_shorter, space_encodings_nonempty. Qed.

Lemma trailing_space_shorter (s r : list ascii) :
  strings.trailing_space s = Some r -> List.length r < List.length s.
Proof. apply strip_any_shorter, rev_encodings_nonempty. Qed.

Section DropWhile.
Variable step : list ascii -> option (list ascii).
Hypothesis step_shorter :
  forall s r, step s = Some r -> List.length r < List.length s.
Hypothesis step_suffix :
  forall s r, step s = Some r -> exists u, s = (u ++ r)%list.

Lemma drop_while_stuck (fuel : nat) (s : list ascii) :
  List.length s <= fuel -> step (strings.drop_while step fuel s) = None.
Proof.
  revert s. induction fuel as [| fuel IH]; intros s Hs; simpl.
  - destruct (step s) as [r |] eqn:E; [| reflexivity].
    apply step_shorter in E. lia.
  - destruct (step s) as [r |] eqn:E; [| exact E].
    apply IH. apply step_shorter in E. lia.
Qed.

Lemma drop_while_suffix (fuel : nat) (s : list ascii) :
  exists u, s = (u ++ strings.drop_while step fuel s)%list.
Proof.
  revert s. induction fuel as [| fuel IH]; intros s; simpl.
  - exists []. reflexivity.
  - destruct (step s) as [r |] eqn:E; [| exists []; reflexivity].
    destruct (step_suffix _ _ E) as [u ->].
    destruct (IH r) as [v Hv].
    exists (u ++ v)%list. rewrite <- app_assoc. congruence.
Qed.
End DropWhile.

Lemma strip_prefix_suffix (p : list N) (s r : list ascii) :
  strings.strip_prefix p s = Some r -> exists u, s = (u ++ r)%list.
Proof.
  revert s. induction p as [| k p IH]; intros s H; simpl in *.
  - injection H as ->. exists []. reflexivity.
  - destruct s as [| c s]; [discriminate |].
    destruct (N_of_ascii c =? k)%N; [| discriminate].
    destruct (IH s H) as [u ->]. exists (c :: u). reflexivity.
Qed.

Lemma strip_any_suffix (ps : list (list N)) (s r : list ascii) :
  strings.strip_any ps s = Some r -> exists u, s = (u ++ r)%list.
Proof.
  induction ps as [| p ps IH]; simpl; [discriminate |].
  destruct (strings.strip_prefix p s) as [r' |] eqn:E.
  - intros H. injection H as ->. eapply strip_prefix_suffix; eassumption.
  - exact IH.
Qed.

Lemma strip_prefix_app (p : list N) (s q r : list ascii) :
  strings.strip_prefix p s = Some r ->
  strings.strip_prefix p (s ++ q) = Some (r ++ q)%list.
Proof.
  revert s. induction p as [| k p IH]; intros s H; simpl in *.
  - injection H as ->. reflexivity.
  - destruct s as [| c s]; [discriminate |]. simpl.
    destruct (N_of_ascii c =? k)%N; [| discriminate].
    apply IH. exact H.
Qed.

Lemma strip_any_app (ps : list (list N)) (s q : list ascii) :
  strings.strip_any ps (s ++ q) = None -> strings.strip_any ps s = None.
Proof.
  induction ps as [| p ps IH]; simpl; [reflexivity |].
  destruct (strings.strip_prefix p s) as [r |] eqn:E.
  - rewrite (strip_prefix_app _ _ q _ E). discriminate.
  - destruct (strings.strip_prefix p (s ++ q)); [discriminate |]. exact IH.
Qed.

Lemma TrimLeft_stripped (s : list ascii) :
  strings.leading_space (strings.TrimLeft s) = None.
Proof.
  apply drop_while_stuck; [exact leading_space_shorter | apply le_n].
Qed.

Lemma TrimRight_stripped (s : list ascii) :
  strings.trailing_space (rev (strings.TrimRight s)) = None.
Proof.
  unfold strings.TrimRight. rewrite rev_involutive.
  apply drop_while_stuck; [exact trailing_space_shorter |].
  rewrite length_rev. apply le_n.
Qed.

Lemma TrimRight_prefix (s : list ascii) :
  exists q, s = (strings.TrimRight s ++ q)%list.
Proof.
  unfold strings.TrimRight.
  destruct (drop_while_suffix strings.trailing_space
              (strip_any_suffix (map (@rev N) strings.space_encodings))
              (List.length s) (rev s)) as [u Hu].
  exists (rev u).
  rewrite <- rev_app_distr, <- Hu, rev_involutive. reflexivity.
Qed.

(** The trimmed string neither starts nor ends with a white-space rune. *)
Lemma TrimSpace_stripped (s : string) :
  strings.stripped (strings.TrimSpace s).
Proof.
  unfold strings.stripped, strings.TrimSpace.
  rewrite list_ascii_of_string_of_list_ascii.
  split; [| apply TrimRight_stripped].
  destruct (TrimRight_prefix (strings.TrimLeft (list_ascii_of_string s)))
    as [q Hq].
  apply strip_any_app with (q := q). rewrite <- Hq.
  apply TrimLeft_stripped.
Qed.

Lemma TrimLeft_blank (s : list ascii) :
  strings.blank s -> strings.TrimLeft s = [].
Proof.
  unfold strings.TrimLeft.
  assert (H : forall fuel s,
             strings.blank s -> List.length s <= fuel ->
             strings.drop_while strings.leading_space fuel s = []).
  { induction fuel as [| fuel IH]; intros l Hb Hl.
    - destruct l; [reflexivity | simpl in Hl; lia].
    - destruct Hb as [| l r E Hb]; simpl; [reflexivity |].
      rewrite E. apply IH; [exact Hb |].
      apply leading_space_shorter in E. lia. }
  intros Hb. apply H; [exact Hb | apply le_n].
Qed.

(** A string of white space only trims to the empty string. *)
Lemma TrimSpace_blank_empty (s : string) :
  strings.blank (list_ascii_of_string s) -> strings.TrimSpace s = "".
Proof.
  intros Hb. unfold strings.TrimSpace.
  rewrite (TrimLeft_blank _ Hb). reflexivity.
Qed.

(** ** Errors *)

Lemma error_eqb_refl (e : error) : error_eqb e e = true.
Proof.
  induction e; simpl; rewrite ?String.eqb_refl, ?IHe; reflexivity.
Qed.

Lemma error_eqb_eq (a b : error) : error_eqb a b = true <-> a = b.
Proof.
  split.
  - revert b; induction a; destruct b; simpl; intros H;
      try discriminate; try reflexivity;
      try (apply String.eqb_eq in H; congruence).
    apply andb_true_iff in H as [H1 H2].
    apply IHa in H1. apply String.eqb_eq in H2. congruence.
  - intros ->. apply error_eqb_refl.
Qed.

Lemma error_eqb_neq (a b : error) : error_eqb a b = false <-> a <> b.
Proof.
  rewrite <- error_eqb_eq. destruct (error_eqb a b); split; congruence.
Qed.

(** ** The handle *)

Lemma set_handle (fii : FIIStore) :
  db fii <> None -> fii = mkFIIStore (Some the_DB).
Proof.
  destruct fii as [[[]|]]; simpl; intros H; [reflexivity | congruence].
Qed.

Lemma unset_handle (fii : FIIStore) :
  db fii = None -> fii = mkFIIStore None.
Proof.
  destruct fii as [d]; simpl; intros ->; reflexivity.
Qed.

(** ** The code-length dispatch *)

Lemma len_other (code : string) :
  len code <> 4 -> len code <> 6 ->
  Nat.eqb (len code) 4 = false /\ Nat.eqb (len code) 6 = false.
Proof.
  intros H4 H6; split; apply Nat.eqb_neq; assumption.
Qed.

(** C7. With a nil handle, StoreFIIDetails, CNPJ and SelectFIIDetails each
    return ErrDBUnset at once, whatever the input: the database is left as
    it was, nothing reaches the engine (the trace is the same), and the
    call returns instead of panicking on the nil pointer. *)
Theorem nil_handle_ErrDBUnset
        (json_Unmarshal : string -> FIIDetails -> FIIDetails * option error)
        (fii : FIIStore) (stream code : string) (w : World) :
  db fii = None ->
  StoreFIIDetails json_Unmarshal fii stream w = (Ret (Some ErrDBUnset), w)
  /\ CNPJ fii code w = (Ret ("", Some ErrDBUnset), w)
  /\ SelectFIIDetails fii code w = (Ret (None, Some ErrDBUnset), w).
Proof.
  intros H. apply unset_handle in H. subst fii.
  repeat split.
Qed.

Lemma nil_handle_ErrDBUnset_witness :
  StoreFIIDetails sample_Unmarshal unset "abcd" fresh
    = (Ret (Some ErrDBUnset), fresh)
  /\ CNPJ unset "ABCD" fresh = (Ret ("", Some ErrDBUnset), fresh)
  /\ SelectFIIDetails unset "ABCD" fresh = (Ret (None, Some ErrDBUnset), fresh).
Proof.
  apply (@nil_handle_ErrDBUnset sample_Unmarshal unset "abcd" "ABCD" fresh).
  reflexivity.
Defined.

(** C6. On a store whose handle is set, a code whose length is neither 4
    nor 6 makes both CNPJ and SelectFIIDetails return the error
    [invalid code '<code>'], which carries the code, and neither sends a
    query: the database and its trace are what they were. *)
Theorem invalid_code_no_query (fii : FIIStore) (code : string) (w : World) :
  db fii <> None ->
  len code <> 4 -> len code <> 6 ->
  CNPJ fii code w
    = (Ret ("", Some (fmt_Errorf ("invalid code '" ++ code ++ "'"))), w)
  /\ SelectFIIDetails fii code w
    = (Ret (None, Some (fmt_Errorf ("invalid code '" ++ code ++ "'"))), w).
Proof.
  intros Hdb H4 H6. apply set_handle in Hdb. subst fii.
  destruct (len_other code H4 H6) as [E4 E6].
  unfold CNPJ, SelectFIIDetails; simpl.
  rewrite E4, E6. split; reflexivity.
Qed.

Lemma invalid_code_no_query_witness :
  CNPJ store "ABC" fresh
    = (Ret ("", Some (fmt_Errorf "invalid code 'ABC'")), fresh)
  /\ SelectFIIDetails store "ABC" fresh
    = (Ret (None, Some (fmt_Errorf "invalid code 'ABC'")), fresh).
Proof.
  apply (@invalid_code_no_query store "ABC" fresh).
  - discriminate.
  - simpl; lia.
  - simpl; lia.
Defined.

(** ** Lookups *)

Ltac run_go :=
  unfold CNPJ, SelectFIIDetails, DB_QueryRow, DB_Exec, hasTable, createTable,
    deref, emit, next_fault, get_table, put_table, bind, ret, result, run;
  simpl.

Lemma CNPJ_no_rows (fii : FIIStore) (code : string) (w : World)
      (t : list Row) :
  db fii <> None ->
  len code = 4 \/ len code = 6 ->
  fii_details w = Some t -> next_call_ok w ->
  (len code = 4 -> where_eq col_acronym code t = []) ->
  (len code = 6 -> where_eq col_trading_code code t = []) ->
  result (CNPJ fii code) w = Ret ("", None).
Proof.
  intros Hdb Hlen Ht Hf H4 H6. apply set_handle in Hdb. subst fii.
  destruct w as [tbl fl tr]. unfold next_call_ok in Hf. simpl in *. subst tbl.
  destruct Hlen as [L | L]; unfold CNPJ, result; rewrite L in *; run_go;
    destruct fl as [| [e |] fl]; simpl in *; try discriminate;
    rewrite ?(H4 eq_refl), ?(H6 eq_refl); reflexivity.
Qed.

(** Case analysis on whatever the next step of a run looks at: the decoded
    payload, a test, the table, the engine's verdict. *)
Ltac run_cases :=
  repeat
    (simpl;
     match goal with
     | |- context [match ?x with _ => _ end] => is_var x; destruct x
     | |- context [match ?f ?s ?z with _ => _ end] => destruct (f s z) eqn:?
     | |- context [if ?b then _ else _] => destruct b eqn:?
     | |- context [hd_error ?l] => destruct (hd_error l) eqn:?
     end);
  simpl.

(** C4. On a store whose handle is set, for a code of 4 or 6 bytes: when the
    table holds no row under that code (acronym for 4, trading code for 6),
    CNPJ returns the empty string and a nil error; when the query fails with
    any error other than sql.ErrNoRows (an error the engine raises, or the
    missing table), CNPJ returns that error unchanged. *)
Theorem CNPJ_not_found_is_empty (fii : FIIStore) (code : string) (w : World) :
  db fii <> None ->
  len code = 4 \/ len code = 6 ->
  (forall t,
      fii_details w = Some t -> next_call_ok w ->
      (len code = 4 -> where_eq col_acronym code t = []) ->
      (len code = 6 -> where_eq col_trading_code code t = []) ->
      result (CNPJ fii code) w = Ret ("", None))
  /\ (forall e,
         hd None (faults w) = Some e -> e <> sql_ErrNoRows ->
         result (CNPJ fii code) w = Ret ("", Some e))
  /\ (fii_details w = None -> next_call_ok w ->
      result (CNPJ fii code) w = Ret ("", Some no_such_table)).
Proof.
  intros Hdb Hlen. split; [| split].
  - intros t Ht Hf H4 H6. eapply CNPJ_no_rows; eassumption.
  - apply set_handle in Hdb. subst fii.
    destruct w as [tbl fl tr]. simpl.
    intros e Hf Hne. apply error_eqb_neq in Hne.
    destruct Hlen as [L | L]; unfold CNPJ, result; rewrite L in *; run_go;
      destruct fl as [| [e' |] fl]; simpl in *; try discriminate;
      injection Hf as ->; simpl; rewrite Hne; reflexivity.
  - apply set_handle in Hdb. subst fii.
    destruct w as [tbl fl tr]. unfold next_call_ok. simpl.
    intros -> Hf.
    destruct Hlen as [L | L]; unfold CNPJ, result; rewrite L in *; run_go;
      destruct fl as [| [e' |] fl]; simpl in *; try discriminate;
      reflexivity.
Qed.

Lemma CNPJ_not_found_is_empty_witness :
  result (CNPJ store "WXYZ")
         (mkWorld (Some [mkRow "12.345.678/0001-90" "ABCD" "ABCD11"]) [] [])
    = Ret ("", None)
  /\ result (CNPJ store "WXYZ11")
            (mkWorld (Some []) [Some (driver_error "database is locked")] [])
    = Ret ("", Some (driver_error "database is locked"))
  /\ result (CNPJ store "WXYZ") fresh = Ret ("", Some no_such_table).
Proof.
  split; [| split].
  - apply (proj1 (@CNPJ_not_found_is_empty store "WXYZ"
                    (mkWorld (Some [mkRow "12.345.678/0001-90" "ABCD" "ABCD11"])
                             [] [])
                    ltac:(discriminate) (or_introl eq_refl))
                 [mkRow "12.345.678/0001-90" "ABCD" "ABCD11"]).
    + reflexivity.
    + reflexivity.
    + reflexivity.
    + discriminate.
  - apply (proj1 (proj2 (@CNPJ_not_found_is_empty store "WXYZ11"
                    (mkWorld (Some []) [Some (driver_error "database is locked")] [])
                    ltac:(discriminate) (or_intror eq_refl)))).
    + reflexivity.
    + discriminate.
  - apply (proj2 (proj2 (@CNPJ_not_found_is_empty store "WXYZ" fresh
                    ltac:(discriminate) (or_introl eq_refl)))).
    + reflexivity.
    + reflexivity.
Defined.

(** C5. On a store whose handle is set and whose table exists, for a code of
    4 or 6 bytes that no row carries (as acronym for 4, as trading code for
    6), SelectFIIDetails returns a nil record and the not-found error of the
    query, sql.ErrNoRows, where CNPJ returns an empty success. *)
Theorem SelectFIIDetails_not_found
        (fii : FIIStore) (code : string) (w : World) (t : list Row) :
  db fii <> None ->
  len code = 4 \/ len code = 6 ->
  fii_details w = Some t -> next_call_ok w ->
  (len code = 4 -> where_eq col_acronym code t = []) ->
  (len code = 6 -> where_eq col_trading_code code t = []) ->
  result (SelectFIIDetails fii code) w = Ret (None, Some sql_ErrNoRows)
  /\ result (CNPJ fii code) w = Ret ("", None).
Proof.
  intros Hdb Hlen Ht Hf H4 H6. split.
  - apply set_handle in Hdb. subst fii.
    destruct w as [tbl fl tr]. unfold next_call_ok in Hf. simpl in *. subst tbl.
    destruct Hlen as [L | L]; unfold SelectFIIDetails, result; rewrite L in *;
      run_go; destruct fl as [| [e |] fl]; simpl in *; try discriminate;
      rewrite ?(H4 eq_refl), ?(H6 eq_refl); reflexivity.
  - eapply CNPJ_no_rows; eassumption.
Qed.

Lemma SelectFIIDetails_not_found_witness :
  result (SelectFIIDetails store "WXYZ11")
         (mkWorld (Some [mkRow "12.345.678/0001-90" "ABCD" "ABCD11"]) [] [])
    = Ret (None, Some sql_ErrNoRows)
  /\ result (CNPJ store "WXYZ11")
            (mkWorld (Some [mkRow "12.345.678/0001-90" "ABCD" "ABCD11"]) [] [])
    = Ret ("", None).
Proof.
  apply (@SelectFIIDetails_not_found store "WXYZ11" _
           [mkRow "12.345.678/0001-90" "ABCD" "ABCD11"]).
  - discriminate.
  - right; reflexivity.
  - reflexivity.
  - reflexivity.
  - discriminate.
  - reflexivity.
Defined.

(** C9. Whenever SelectFIIDetails succeeds, the record it returns is the
    zero FIIDetails with only CNPJ, Acronym and TradingCode set, from the
    first row of the table under the code: every other field of DetailFund
    and every field of ShareHolder is empty. *)
Theorem SelectFIIDetails_projection
        (fii : FIIStore) (code : string) (w : World)
        (p : option FIIDetails) :
  result (SelectFIIDetails fii code) w = Ret (p, None) ->
  exists r : Row,
    In r (rows w)
    /\ (len code = 4
        /\ hd_error (where_eq col_acronym code (rows w)) = Some r
        \/ len code = 6
           /\ hd_error (where_eq col_trading_code code (rows w)) = Some r)
    /\ p = Some (mkFIIDetails
                   (DetailFund.mk (acronym r) "" (trading_code r) ""
                                  (cnpj r) "" "" "" "" "" "" "" "" "" ""
                                  "" "" "" "" "" "" None any_nil any_nil)
                   (ShareHolder.mk "" "" "" "" "" "")).
Proof.
  destruct fii as [[[] |]]; [| discriminate].
  destruct w as [tbl fl tr]. unfold SelectFIIDetails, result, rows. simpl.
  assert (Hin : forall k r t,
             hd_error (where_eq k code t) = Some r -> In r t).
  { intros k r t H. unfold where_eq in H.
    destruct (filter _ t) as [| r' l] eqn:E; [discriminate |].
    injection H as ->.
    assert (In r (filter (fun r0 => column k r0 =? code) t))
      by (rewrite E; left; reflexivity).
    apply filter_In in H. tauto. }
  destruct (Nat.eqb (len code) 4) eqn:E4;
    [| destruct (Nat.eqb (len code) 6) eqn:E6; [| discriminate]];
    run_go;
    (destruct fl as [| [e |] fl]; simpl; try discriminate);
    (destruct tbl as [t |]; simpl; [| discriminate]);
    (match goal with
     | |- context [hd_error (where_eq ?k code t)] =>
         destruct (hd_error (where_eq k code t)) as [r |] eqn:Er
     end; simpl; [| discriminate]);
    intros H; injection H as <-; exists r;
    (split; [eapply Hin; eassumption |]);
    (split; [| reflexivity]).
  - left. apply Nat.eqb_eq in E4. tauto.
  - left. apply Nat.eqb_eq in E4. tauto.
  - right. apply Nat.eqb_eq in E6. tauto.
  - right. apply Nat.eqb_eq in E6. tauto.
Qed.

Lemma SelectFIIDetails_projection_witness :
  exists r : Row,
    In r [mkRow "12.345.678/0001-90" "ABCD" "ABCD11"]
    /\ (4 = 4
        /\ hd_error (where_eq col_acronym "ABCD"
                       [mkRow "12.345.678/0001-90" "ABCD" "ABCD11"]) = Some r
        \/ 4 = 6
           /\ hd_error (where_eq col_trading_code "ABCD"
                          [mkRow "12.345.678/0001-90" "ABCD" "ABCD11"]) = Some r)
    /\ Some (fund "12.345.678/0001-90" "ABCD" "ABCD11")
       = Some (mkFIIDetails
                 (DetailFund.mk (acronym r) "" (trading_code r) ""
                                (cnpj r) "" "" "" "" "" "" "" "" "" ""
                                "" "" "" "" "" "" None any_nil any_nil)
                 (ShareHolder.mk "" "" "" "" "" "")).
Proof.
  apply (SelectFIIDetails_projection store "ABCD"
           (mkWorld (Some [mkRow "12.345.678/0001-90" "ABCD" "ABCD11"]) [] [])
           (Some (fund "12.345.678/0001-90" "ABCD" "ABCD11"))).
  reflexivity.
Defined.

(** Without the guard a call through a nil handle panics. *)
Example nil_handle_panics :
  result (DB_QueryRow None "SELECT cnpj FROM fii_details WHERE acronym=?"
                      ["ABCD"]) fresh
  = Panic "invalid memory address or nil pointer dereference".
Proof. reflexivity. Qed.

(** The lookups return, whatever the engine does, and leave the table as
    it is. *)
Lemma CNPJ_returns (fii : FIIStore) (code : string) (w : World) :
  (exists r, result (CNPJ fii code) w = Ret r)
  /\ fii_details (run (CNPJ fii code) w) = fii_details w.
Proof.
  destruct fii as [[[] |]]; [| split; [eexists |]; reflexivity].
  destruct w as [tbl fl tr]. unfold CNPJ, result, run. run_go.
  run_cases; (split; [eexists |]; reflexivity).
Qed.

Lemma SelectFIIDetails_returns (fii : FIIStore) (code : string) (w : World) :
  (exists r, result (SelectFIIDetails fii code) w = Ret r)
  /\ fii_details (run (SelectFIIDetails fii code) w) = fii_details w.
Proof.
  destruct fii as [[[] |]]; [| split; [eexists |]; reflexivity].
  destruct w as [tbl fl tr]. unfold SelectFIIDetails, result, run. run_go.
  run_cases; (split; [eexists |]; reflexivity).
Qed.

(** ** Tables *)

Lemma has_cnpj_In (c : string) (t : list Row) :
  has_cnpj c t = true <-> exists r, In r t /\ cnpj r = c.
Proof.
  unfold has_cnpj. rewrite existsb_exists.
  split; intros [r [Hin H]]; exists r; split; trivial;
    apply String.eqb_eq; assumption.
Qed.

Lemma has_cnpj_map (c : string) (t : list Row) :
  has_cnpj c t = true <-> In c (map cnpj t).
Proof.
  rewrite has_cnpj_In, in_map_iff.
  split; intros [r H]; exists r; tauto.
Qed.

Lemma has_cnpj_insert (r : Row) (t : list Row) :
  has_cnpj (cnpj r) (insert_or_ignore r t) = true.
Proof.
  unfold insert_or_ignore.
  destruct (has_cnpj (cnpj r) t) eqn:E; [assumption |].
  unfold has_cnpj. rewrite existsb_app. simpl.
  rewrite String.eqb_refl. apply orb_true_iff. right. reflexivity.
Qed.

Lemma insert_or_ignore_present (r : Row) (t : list Row) :
  has_cnpj (cnpj r) t = true -> insert_or_ignore r t = t.
Proof.
  unfold insert_or_ignore. intros ->. reflexivity.
Qed.

Lemma insert_or_ignore_absent (r : Row) (t : list Row) :
  has_cnpj (cnpj r) t = false -> insert_or_ignore r t = (t ++ [r])%list.
Proof.
  unfold insert_or_ignore. intros ->. reflexivity.
Qed.

(** The unique identity is an invariant of the insert. *)
Lemma insert_or_ignore_unique (r : Row) (t : list Row) :
  unique_cnpj t -> unique_cnpj (insert_or_ignore r t).
Proof.
  unfold unique_cnpj, insert_or_ignore. intros H.
  destruct (has_cnpj (cnpj r) t) eqn:E; [assumption |].
  rewrite map_app. simpl.
  apply NoDup_app_remove_l with (l := []). simpl.
  apply NoDup_rev in H. rewrite <- (rev_involutive (map cnpj t ++ [cnpj r])).
  apply NoDup_rev. rewrite rev_app_distr. simpl.
  constructor; [| assumption].
  rewrite <- in_rev. rewrite <- has_cnpj_map. congruence.
Qed.

Lemma where_eq_count (k : Column) (v : string) (t : list Row) :
  List.length (where_eq k v t) = count_occ string_dec (map (column k) t) v.
Proof.
  induction t as [| r t IH]; simpl; [reflexivity |].
  destruct (string_dec (column k r) v) as [E | E].
  - apply String.eqb_eq in E. rewrite E. simpl. rewrite IH. reflexivity.
  - apply String.eqb_neq in E. rewrite E. assumption.
Qed.

(** Under the unique identity a cnpj of the table has exactly one row. *)
Lemma unique_cnpj_one_row (c : string) (t : list Row) :
  unique_cnpj t -> has_cnpj c t = true ->
  List.length (where_eq col_cnpj c t) = 1.
Proof.
  intros Hu Hc. rewrite where_eq_count. simpl.
  change (map (column col_cnpj) t) with (map cnpj t).
  apply has_cnpj_map in Hc.
  pose proof (proj1 (NoDup_count_occ string_dec (map cnpj t)) Hu c) as Hle.
  pose proof (proj1 (count_occ_In string_dec (map cnpj t) c) Hc) as Hgt.
  lia.
Qed.

Lemma where_eq_app (k : Column) (v : string) (t u : list Row) :
  where_eq k v (t ++ u) = (where_eq k v t ++ where_eq k v u)%list.
Proof. apply filter_app. Qed.

Lemma where_eq_none (k : Column) (v : string) (t : list Row) :
  (forall r, In r t -> column k r <> v) -> where_eq k v t = [].
Proof.
  intros H. induction t as [| r t IH]; simpl; [reflexivity |].
  destruct (column k r =? v) eqn:E.
  - apply String.eqb_eq in E. exfalso. apply (H r); [left; reflexivity | exact E].
  - apply IH. intros r' Hr'. apply H. right. assumption.
Qed.

Lemma has_cnpj_none (c : string) (t : list Row) :
  (forall r, In r t -> cnpj r <> c) -> has_cnpj c t = false.
Proof.
  intros H. destruct (has_cnpj c t) eqn:E; [| reflexivity].
  apply has_cnpj_In in E as [r [Hin Hr]]. exfalso. exact (H r Hin Hr).
Qed.

Lemma insert_or_ignore_In (r r' : Row) (t : list Row) :
  In r' (insert_or_ignore r t) -> In r' t \/ r' = r.
Proof.
  unfold insert_or_ignore. destruct (has_cnpj (cnpj r) t); [tauto |].
  rewrite in_app_iff. simpl. intuition congruence.
Qed.

(** When the rows with cnpj [c] are the rows with [v] in column [k], and
    there is one, the first row under [v] has cnpj [c]. *)
Lemma first_row_cnpj (k : Column) (v c : string) (t : list Row) :
  (forall r, In r t -> (cnpj r = c <-> column k r = v)) ->
  has_cnpj c t = true ->
  exists r, hd_error (where_eq k v t) = Some r /\ cnpj r = c.
Proof.
  intros Hagree Hc.
  apply has_cnpj_In in Hc as [r0 [Hin0 Hr0]].
  assert (H0 : In r0 (where_eq k v t)).
  { apply filter_In. split; [exact Hin0 |].
    apply String.eqb_eq. apply (Hagree r0 Hin0). exact Hr0. }
  destruct (where_eq k v t) as [| r l] eqn:E; [contradiction |].
  exists r. split; [reflexivity |].
  assert (H : In r (where_eq k v t)) by (rewrite E; left; reflexivity).
  apply filter_In in H as [Hin Hr]. apply String.eqb_eq in Hr.
  apply (Hagree r Hin). exact Hr.
Qed.

(** A lookup returns the cnpj of the first row under the code. *)
Lemma CNPJ_first_row (fii : FIIStore) (code : string) (w : World)
      (t : list Row) (r : Row) :
  db fii <> None ->
  fii_details w = Some t -> next_call_ok w ->
  len code = 4 /\ hd_error (where_eq col_acronym code t) = Some r
  \/ len code = 6 /\ hd_error (where_eq col_trading_code code t) = Some r ->
  result (CNPJ fii code) w = Ret (cnpj r, None).
Proof.
  intros Hdb Ht Hf H. apply set_handle in Hdb. subst fii.
  destruct w as [tbl fl tr]. unfold next_call_ok in Hf. simpl in *. subst tbl.
  destruct H as [[L H] | [L H]]; unfold CNPJ, result; rewrite L; run_go;
    destruct fl as [| [e |] fl]; simpl in *; try discriminate;
    rewrite H; reflexivity.
Qed.

(** ** StoreFIIDetails *)

Lemma trim_CNPJ (f : FIIDetails) :
  DetailFund.CNPJ (DetailFund (trimFIIDetails f))
  = strings.TrimSpace (DetailFund.CNPJ (DetailFund f)).
Proof. reflexivity. Qed.

Lemma trim_Acronym (f : FIIDetails) :
  DetailFund.Acronym (DetailFund (trimFIIDetails f))
  = strings.TrimSpace (DetailFund.Acronym (DetailFund f)).
Proof. reflexivity. Qed.

Lemma trim_TradingCode (f : FIIDetails) :
  DetailFund.TradingCode (DetailFund (trimFIIDetails f))
  = strings.TrimSpace (DetailFund.TradingCode (DetailFund f)).
Proof. reflexivity. Qed.

Section StoreProperties.

Variable json_Unmarshal : string -> FIIDetails -> FIIDetails * option error.

Local Abbreviation Store := (StoreFIIDetails json_Unmarshal).

(** A call on a healthy engine with a payload that decodes and has a
    CNPJ: the table is created if missing and the trimmed row is inserted
    unless its cnpj is there. *)
Lemma Store_healthy (fii : FIIStore) (stream : string) (d : FIIDetails)
      (w : World) :
  db fii <> None -> healthy w ->
  json_Unmarshal stream zero_FIIDetails = (d, None) ->
  strings.TrimSpace (DetailFund.CNPJ (DetailFund d)) <> "" ->
  Store fii stream w
  = (Ret None,
     mkWorld (Some (insert_or_ignore (trimmed d) (rows w))) []
             (trace w ++ calls w d)).
Proof.
  intros Hdb Hh Hd Hc. apply set_handle in Hdb. subst fii.
  destruct w as [tbl fl tr]. unfold healthy in Hh. simpl in Hh. subst fl.
  apply String.eqb_neq in Hc.
  unfold StoreFIIDetails, calls, rows, trimmed.
  destruct tbl as [t |]; run_go; rewrite Hd, Hc; simpl;
    rewrite <- ?app_assoc; reflexivity.
Qed.

(** A payload whose CNPJ is empty once trimmed, when the table is there
    or can be created. *)
Lemma Store_empty_CNPJ (fii : FIIStore) (stream : string) (d : FIIDetails)
      (w : World) :
  db fii <> None ->
  fii_details w <> None \/ next_call_ok w ->
  json_Unmarshal stream zero_FIIDetails = (d, None) ->
  strings.TrimSpace (DetailFund.CNPJ (DetailFund d)) = "" ->
  Store fii stream w
  = (Ret (Some (fmt_Errorf "wrong CNPJ: ")),
     match fii_details w with
     | Some _ =>
         mkWorld (fii_details w) (faults w)
                 (trace w ++ [io_hasTable "fii_details"])
     | None =>
         mkWorld (Some []) (tl (faults w))
                 (trace w ++ [io_hasTable "fii_details";
                              io_createTable "fii_details"])
     end).
Proof.
  intros Hdb Hok Hd Hc. apply set_handle in Hdb. subst fii.
  destruct w as [tbl fl tr]. unfold next_call_ok in Hok. simpl in Hok.
  unfold StoreFIIDetails.
  destruct tbl as [t |]; run_go.
  - rewrite Hd, Hc. reflexivity.
  - destruct Hok as [Hok | Hok]; [congruence |].
    destruct fl as [| [e |] fl]; simpl in *; try discriminate;
      rewrite Hd, Hc; simpl; rewrite <- ?app_assoc; reflexivity.
Qed.

(** A payload that does not decode, when the table is there or can be
    created. *)
Lemma Store_bad_payload (fii : FIIStore) (stream : string) (d : FIIDetails)
      (e : error) (w : World) :
  db fii <> None ->
  fii_details w <> None \/ next_call_ok w ->
  json_Unmarshal stream zero_FIIDetails = (d, Some e) ->
  Store fii stream w
  = (Ret (Some (errors_Wrap e "json unmarshal")),
     match fii_details w with
     | Some _ =>
         mkWorld (fii_details w) (faults w)
                 (trace w ++ [io_hasTable "fii_details"])
     | None =>
         mkWorld (Some []) (tl (faults w))
                 (trace w ++ [io_hasTable "fii_details";
                              io_createTable "fii_details"])
     end).
Proof.
  intros Hdb Hok Hd. apply set_handle in Hdb. subst fii.
  destruct w as [tbl fl tr]. unfold next_call_ok in Hok. simpl in Hok.
  unfold StoreFIIDetails.
  destruct tbl as [t |]; run_go.
  - rewrite Hd. reflexivity.
  - destruct Hok as [Hok | Hok]; [congruence |].
    destruct fl as [| [e' |] fl]; simpl in *; try discriminate;
      rewrite Hd; simpl; rewrite <- ?app_assoc; reflexivity.
Qed.

(** Whatever the payload and whatever the engine does, a call returns: it
    never panics. *)
Lemma StoreFIIDetails_returns (fii : FIIStore) (stream : string) (w : World) :
  exists err, result (Store fii stream) w = Ret err.
Proof.
  destruct fii as [[[] |]]; [| eexists; reflexivity].
  destruct w as [tbl fl tr]. unfold StoreFIIDetails, result. run_go.
  run_cases; eexists; reflexivity.
Qed.

(** A call adds at most one row at the end of the table and touches no
    other; the unique identity of the table is kept. *)
Lemma StoreFIIDetails_rows (fii : FIIStore) (stream : string) (w : World) :
  rows (run (Store fii stream) w) = rows w
  \/ exists r, has_cnpj (cnpj r) (rows w) = false
               /\ rows (run (Store fii stream) w) = (rows w ++ [r])%list.
Proof.
  destruct fii as [[[] |]]; [| left; reflexivity].
  destruct w as [tbl fl tr].
  unfold StoreFIIDetails, run, rows. run_go.
  run_cases; try (left; reflexivity);
    unfold insert_or_ignore;
    match goal with
    | |- context [if ?b then _ else _] =>
        destruct b eqn:Hc;
        [left; reflexivity
        | right; eexists; split; [exact Hc | reflexivity]]
    end.
Qed.

Lemma StoreFIIDetails_unique (fii : FIIStore) (stream : string) (w : World) :
  unique_cnpj (rows w) -> unique_cnpj (rows (run (Store fii stream) w)).
Proof.
  intros Hu.
  destruct (StoreFIIDetails_rows fii stream w) as [E | [r [Hr E]]];
    rewrite E; [exact Hu |].
  rewrite <- (insert_or_ignore_absent _ _ Hr).
  apply insert_or_ignore_unique. exact Hu.
Qed.

(** C1. On a store whose handle is set and whose engine is healthy, two
    calls of StoreFIIDetails with payloads that decode and carry the same
    non-empty CNPJ (once trimmed) both return nil; the second leaves the
    table as the first left it, and the table then has exactly one row
    for that CNPJ. *)
Theorem store_twice_one_row
        (fii : FIIStore) (s1 s2 : string) (d1 d2 : FIIDetails) (w : World) :
  db fii <> None -> healthy w -> unique_cnpj (rows w) ->
  json_Unmarshal s1 zero_FIIDetails = (d1, None) ->
  json_Unmarshal s2 zero_FIIDetails = (d2, None) ->
  strings.TrimSpace (DetailFund.CNPJ (DetailFund d1)) <> "" ->
  strings.TrimSpace (DetailFund.CNPJ (DetailFund d2))
  = strings.TrimSpace (DetailFund.CNPJ (DetailFund d1)) ->
  let w1 := run (Store fii s1) w in
  let w2 := run (Store fii s2) w1 in
  result (Store fii s1) w = Ret None
  /\ result (Store fii s2) w1 = Ret None
  /\ fii_details w2 = fii_details w1
  /\ List.length
       (where_eq col_cnpj
                 (strings.TrimSpace (DetailFund.CNPJ (DetailFund d1)))
                 (rows w2)) = 1.
Proof.
  intros Hdb Hh Hu Hd1 Hd2 Hc Hsame w1 w2.
  assert (Hc2 : strings.TrimSpace (DetailFund.CNPJ (DetailFund d2)) <> "")
    by congruence.
  pose proof (Store_healthy fii s1 d1 w Hdb Hh Hd1 Hc) as E1.
  assert (Hw1 : w1 = mkWorld (Some (insert_or_ignore (trimmed d1) (rows w)))
                             [] (trace w ++ calls w d1))
    by (unfold w1, run; rewrite E1; reflexivity).
  assert (Hh1 : healthy w1) by (rewrite Hw1; reflexivity).
  pose proof (Store_healthy fii s2 d2 w1 Hdb Hh1 Hd2 Hc2) as E2.
  assert (Hin : has_cnpj (cnpj (trimmed d2)) (rows w1) = true).
  { rewrite Hw1. unfold rows. simpl. rewrite Hsame.
    apply (has_cnpj_insert (trimmed d1)). }
  assert (Hw2 : fii_details w2 = fii_details w1).
  { unfold w2, run. rewrite E2. simpl.
    rewrite insert_or_ignore_present by exact Hin.
    rewrite Hw1. reflexivity. }
  unfold result. rewrite E1, E2. simpl.
  repeat split; [exact Hw2 |].
  unfold rows at 1. rewrite Hw2, Hw1. simpl.
  apply unique_cnpj_one_row.
  - apply insert_or_ignore_unique. exact Hu.
  - apply (has_cnpj_insert (trimmed d1)).
Qed.

(** C2. On a store whose handle is set and whose table exists or can be
    created, a payload whose CNPJ is empty once trimmed makes
    StoreFIIDetails return the error [wrong CNPJ: ]; no insert is
    executed and the rows of the table are what they were. *)
Theorem empty_CNPJ_no_insert
        (fii : FIIStore) (stream : string) (d : FIIDetails) (w : World) :
  db fii <> None ->
  fii_details w <> None \/ next_call_ok w ->
  json_Unmarshal stream zero_FIIDetails = (d, None) ->
  strings.TrimSpace (DetailFund.CNPJ (DetailFund d)) = "" ->
  result (Store fii stream) w = Ret (Some (fmt_Errorf "wrong CNPJ: "))
  /\ rows (run (Store fii stream) w) = rows w
  /\ execs (run (Store fii stream) w) = execs w.
Proof.
  intros Hdb Hok Hd Hc.
  pose proof (Store_empty_CNPJ fii stream d w Hdb Hok Hd Hc) as E.
  unfold result, run. rewrite E. simpl.
  split; [reflexivity |].
  unfold rows, execs.
  destruct (fii_details w) as [t |]; simpl;
    rewrite filter_app; simpl; rewrite app_nil_r; split; reflexivity.
Qed.

(** C10. StoreFIIDetails ensures the table before it decodes or validates
    the payload: on a store whose handle is set and whose table is
    missing, a payload that does not decode and a payload whose CNPJ is
    empty once trimmed both make the call return an error, and the call
    has created the (empty) table all the same. *)
Theorem table_created_on_error
        (fii : FIIStore) (stream : string) (d : FIIDetails)
        (err : option error) (w : World) :
  db fii <> None ->
  fii_details w = None -> next_call_ok w ->
  json_Unmarshal stream zero_FIIDetails = (d, err) ->
  err <> None
  \/ strings.TrimSpace (DetailFund.CNPJ (DetailFund d)) = "" ->
  (exists e, result (Store fii stream) w = Ret (Some e))
  /\ fii_details (run (Store fii stream) w) = Some []
  /\ run (Store fii stream) w <> w.
Proof.
  intros Hdb Ht Hok Hd H.
  assert (Hne : forall f l, mkWorld (Some []) f l <> w)
    by (intros f l Hw; rewrite <- Hw in Ht; discriminate).
  destruct err as [e |].
  - pose proof (Store_bad_payload fii stream d e w Hdb (or_intror Hok) Hd)
      as E.
    unfold result, run. rewrite E, Ht. simpl.
    split; [eexists; reflexivity |]. split; [reflexivity | apply Hne].
  - destruct H as [H | H]; [congruence |].
    pose proof (Store_empty_CNPJ fii stream d w Hdb (or_intror Hok) Hd H)
      as E.
    unfold result, run. rewrite E, Ht. simpl.
    split; [eexists; reflexivity |]. split; [reflexivity | apply Hne].
Qed.

(** Store, then look up: when the cnpj and the code are new to the table,
    the lookup by the stored (trimmed) code returns the stored (trimmed)
    cnpj. *)
Lemma Store_then_CNPJ (fii : FIIStore) (stream : string) (d : FIIDetails)
      (w : World) :
  db fii <> None -> healthy w ->
  json_Unmarshal stream zero_FIIDetails = (d, None) ->
  cnpj (trimmed d) <> "" ->
  has_cnpj (cnpj (trimmed d)) (rows w) = false ->
  rows (run (Store fii stream) w) = (rows w ++ [trimmed d])%list
  /\ (len (acronym (trimmed d)) = 4 ->
      where_eq col_acronym (acronym (trimmed d)) (rows w) = [] ->
      result (CNPJ fii (acronym (trimmed d))) (run (Store fii stream) w)
      = Ret (cnpj (trimmed d), None))
  /\ (len (trading_code (trimmed d)) = 6 ->
      where_eq col_trading_code (trading_code (trimmed d)) (rows w) = [] ->
      result (CNPJ fii (trading_code (trimmed d))) (run (Store fii stream) w)
      = Ret (cnpj (trimmed d), None)).
Proof.
  intros Hdb Hh Hd Hc Hnew.
  pose proof (Store_healthy fii stream d w Hdb Hh Hd Hc) as E.
  unfold run at 1 2 3. rewrite E. simpl.
  rewrite (insert_or_ignore_absent _ _ Hnew).
  split; [reflexivity |].
  split; intros L Hnone.
  - apply (CNPJ_first_row fii _ _ (rows w ++ [trimmed d]) (trimmed d));
      [exact Hdb | reflexivity | reflexivity |].
    left. split; [exact L |].
    rewrite where_eq_app, Hnone. simpl.
    rewrite String.eqb_refl. reflexivity.
  - apply (CNPJ_first_row fii _ _ (rows w ++ [trimmed d]) (trimmed d));
      [exact Hdb | reflexivity | reflexivity |].
    right. split; [exact L |].
    rewrite where_eq_app, Hnone. simpl.
    rewrite String.eqb_refl. reflexivity.
Qed.

(** C3, amended. On a store whose handle is set and whose engine is
    healthy, when each row of the table has CNPJ 12.345.678/0001-90 exactly
    if it has acronym ABCD and exactly if it has trading code ABCD11 (no
    other fund is stored under these codes and this fund is not stored
    under other codes; a table without these values, or none, is the first
    case): StoreFIIDetails of a record with these three fields returns nil,
    and afterwards CNPJ of ABCD and CNPJ of ABCD11 both return
    12.345.678/0001-90 and a nil error. *)
Theorem roundtrip_when_codes_agree
        (fii : FIIStore) (stream : string) (d : FIIDetails) (w : World) :
  db fii <> None -> healthy w ->
  json_Unmarshal stream zero_FIIDetails = (d, None) ->
  DetailFund.CNPJ (DetailFund d) = "12.345.678/0001-90" ->
  DetailFund.Acronym (DetailFund d) = "ABCD" ->
  DetailFund.TradingCode (DetailFund d) = "ABCD11" ->
  (forall r, In r (rows w) ->
             (cnpj r = "12.345.678/0001-90" <-> acronym r = "ABCD")
             /\ (cnpj r = "12.345.678/0001-90" <-> trading_code r = "ABCD11")) ->
  let w1 := run (Store fii stream) w in
  result (Store fii stream) w = Ret None
  /\ result (CNPJ fii "ABCD") w1 = Ret ("12.345.678/0001-90", None)
  /\ result (CNPJ fii "ABCD11") w1 = Ret ("12.345.678/0001-90", None).
Proof.
  intros Hdb Hh Hd Hc Ha Ht Hagree w1.
  assert (Et : trimmed d = mkRow "12.345.678/0001-90" "ABCD" "ABCD11")
    by (unfold trimmed; rewrite Hc, Ha, Ht; reflexivity).
  assert (Hne : strings.TrimSpace (DetailFund.CNPJ (DetailFund d)) <> "")
    by (rewrite Hc; discriminate).
  pose proof (Store_healthy fii stream d w Hdb Hh Hd Hne) as E.
  rewrite Et in E.
  set (t1 := insert_or_ignore
               (mkRow "12.345.678/0001-90" "ABCD" "ABCD11") (rows w)) in E.
  assert (Hw1 : fii_details w1 = Some t1 /\ next_call_ok w1)
    by (unfold w1, run; rewrite E; split; reflexivity).
  destruct Hw1 as [Ht1 Hok1].
  assert (Hagree1 : forall r, In r t1 ->
            (cnpj r = "12.345.678/0001-90" <-> acronym r = "ABCD")
            /\ (cnpj r = "12.345.678/0001-90" <-> trading_code r = "ABCD11")).
  { intros r Hr. apply insert_or_ignore_In in Hr as [Hr | ->].
    - apply Hagree. exact Hr.
    - simpl. tauto. }
  assert (Hin1 : has_cnpj "12.345.678/0001-90" t1 = true)
    by (apply (has_cnpj_insert (mkRow "12.345.678/0001-90" "ABCD" "ABCD11"))).
  split; [| split].
  - unfold result. rewrite E. reflexivity.
  - destruct (first_row_cnpj col_acronym "ABCD" "12.345.678/0001-90" t1)
      as [r [Hr <-]]; [intros r Hr; apply (Hagree1 r Hr) | exact Hin1 |].
    apply (CNPJ_first_row fii "ABCD" w1 t1 r Hdb Ht1 Hok1).
    left. split; [reflexivity | exact Hr].
  - destruct (first_row_cnpj col_trading_code "ABCD11" "12.345.678/0001-90" t1)
      as [r [Hr <-]]; [intros r Hr; apply (Hagree1 r Hr) | exact Hin1 |].
    apply (CNPJ_first_row fii "ABCD11" w1 t1 r Hdb Ht1 Hok1).
    right. split; [reflexivity | exact Hr].
Qed.

(** C8. StoreFIIDetails trims CNPJ, Acronym and TradingCode before it
    validates and before it stores.  The trimmed fields neither start nor
    end with white space.  On a store whose handle is set and whose engine
    is healthy, a payload whose trimmed CNPJ is empty is refused and the
    rows stay; any other payload is sent and stored as the row of the three
    trimmed fields (unless its trimmed CNPJ is there already).
    With CNPJ [ 12.345.678/0001-90 ] and no such fund in the table, the
    row stored has cnpj [12.345.678/0001-90], a query on that cnpj finds
    it, none is under the padded value, and the lookups by its trimmed
    codes return [12.345.678/0001-90]. *)
Theorem store_trims_fields
        (fii : FIIStore) (stream : string) (d : FIIDetails) (w : World) :
  db fii <> None -> healthy w ->
  json_Unmarshal stream zero_FIIDetails = (d, None) ->
  let c := strings.TrimSpace (DetailFund.CNPJ (DetailFund d)) in
  let a := strings.TrimSpace (DetailFund.Acronym (DetailFund d)) in
  let t := strings.TrimSpace (DetailFund.TradingCode (DetailFund d)) in
  let w1 := run (Store fii stream) w in
  (strings.stripped c /\ strings.stripped a /\ strings.stripped t)
  /\ (c = "" ->
      result (Store fii stream) w = Ret (Some (fmt_Errorf "wrong CNPJ: "))
      /\ rows w1 = rows w)
  /\ (c <> "" ->
      result (Store fii stream) w = Ret None
      /\ fii_details w1 = Some (insert_or_ignore (mkRow c a t) (rows w))
      /\ execs w1
         = (execs w
              ++ [io_Exec "INSERT OR IGNORE INTO fii_details (cnpj, acronym, trading_code) VALUES (?,?,?)"
                          [c; a; t]])%list)
  /\ (DetailFund.CNPJ (DetailFund d) = " 12.345.678/0001-90 " ->
      has_cnpj "12.345.678/0001-90" (rows w) = false ->
      has_cnpj " 12.345.678/0001-90 " (rows w) = false ->
      rows w1 = (rows w ++ [mkRow "12.345.678/0001-90" a t])%list
      /\ where_eq col_cnpj "12.345.678/0001-90" (rows w1)
         = [mkRow "12.345.678/0001-90" a t]
      /\ where_eq col_cnpj " 12.345.678/0001-90 " (rows w1) = []
      /\ (len a = 4 -> where_eq col_acronym a (rows w) = [] ->
          result (CNPJ fii a) w1 = Ret ("12.345.678/0001-90", None))
      /\ (len t = 6 -> where_eq col_trading_code t (rows w) = [] ->
          result (CNPJ fii t) w1 = Ret ("12.345.678/0001-90", None))).
Proof.
  intros Hdb Hh Hd c a t w1.
  split; [| split; [| split]].
  - split; [| split]; apply TrimSpace_stripped.
  - intros Hc.
    assert (Hok : fii_details w <> None \/ next_call_ok w)
      by (right; unfold next_call_ok; rewrite Hh; reflexivity).
    pose proof (Store_empty_CNPJ fii stream d w Hdb Hok Hd Hc) as E.
    unfold w1, result, run. rewrite E. simpl.
    split; [reflexivity |].
    unfold rows. destruct (fii_details w); reflexivity.
  - intros Hc.
    pose proof (Store_healthy fii stream d w Hdb Hh Hd Hc) as E.
    unfold w1, result, run. rewrite E. simpl.
    split; [reflexivity |]. split; [reflexivity |].
    unfold execs, calls. simpl. rewrite filter_app. simpl.
    destruct (fii_details w); reflexivity.
  - intros Hraw Hnew Hpad.
    assert (Ec : c = "12.345.678/0001-90")
      by (unfold c; rewrite Hraw; reflexivity).
    assert (Et : trimmed d = mkRow "12.345.678/0001-90" a t)
      by (unfold trimmed; fold c a t; rewrite Ec; reflexivity).
    assert (Hne : cnpj (trimmed d) <> "") by (rewrite Et; discriminate).
    assert (Hno : has_cnpj (cnpj (trimmed d)) (rows w) = false)
      by (rewrite Et; exact Hnew).
    destruct (Store_then_CNPJ fii stream d w Hdb Hh Hd Hne Hno)
      as [Hrows [H4 H6]].
    fold w1 in Hrows, H4, H6. rewrite Et in Hrows, H4, H6.
    simpl in H4, H6.
    split; [exact Hrows |]. rewrite Hrows.
    split; [| split; [| split; assumption]].
    + rewrite where_eq_app. simpl.
      rewrite where_eq_none; [reflexivity |].
      intros r Hr E. simpl in E.
      assert (has_cnpj "12.345.678/0001-90" (rows w) = true)
        by (apply has_cnpj_In; exists r; tauto).
      congruence.
    + rewrite where_eq_app. simpl.
      rewrite where_eq_none; [reflexivity |].
      intros r Hr E. simpl in E.
      assert (has_cnpj " 12.345.678/0001-90 " (rows w) = true)
        by (apply has_cnpj_In; exists r; tauto).
      congruence.
Qed.

End StoreProperties.

(** ** The properties on concrete stores *)

Lemma store_twice_one_row_witness :
  let w1 := run (StoreFIIDetails sample_Unmarshal store "abcd") fresh in
  let w2 := run (StoreFIIDetails sample_Unmarshal store "abcd-padded") w1 in
  result (StoreFIIDetails sample_Unmarshal store "abcd") fresh = Ret None
  /\ result (StoreFIIDetails sample_Unmarshal store "abcd-padded") w1 = Ret None
  /\ fii_details w2 = fii_details w1
  /\ List.length
       (where_eq col_cnpj
          (strings.TrimSpace
             (DetailFund.CNPJ
                (DetailFund (fund "12.345.678/0001-90" "ABCD" "ABCD11"))))
          (rows w2)) = 1.
Proof.
  apply (store_twice_one_row sample_Unmarshal store "abcd" "abcd-padded"
           (fund "12.345.678/0001-90" "ABCD" "ABCD11")
           (fund " 12.345.678/0001-90 " " ABCD " " ABCD11 ") fresh).
  - discriminate.
  - reflexivity.
  - constructor.
  - reflexivity.
  - reflexivity.
  - intros H. vm_compute in H. discriminate H.
  - reflexivity.
Defined.

Lemma empty_CNPJ_no_insert_witness :
  let w := mkWorld (Some [mkRow "12.345.678/0001-90" "ABCD" "ABCD11"]) [] [] in
  result (StoreFIIDetails sample_Unmarshal store "blank") w
  = Ret (Some (fmt_Errorf "wrong CNPJ: "))
  /\ rows (run (StoreFIIDetails sample_Unmarshal store "blank") w) = rows w
  /\ execs (run (StoreFIIDetails sample_Unmarshal store "blank") w) = execs w.
Proof.
  apply (empty_CNPJ_no_insert sample_Unmarshal store "blank"
           (fund "   " "EFGH" "EFGH11")
           (mkWorld (Some [mkRow "12.345.678/0001-90" "ABCD" "ABCD11"]) [] [])).
  - discriminate.
  - left. discriminate.
  - reflexivity.
  - reflexivity.
Defined.

Lemma table_created_on_error_witness :
  ((exists e,
       result (StoreFIIDetails sample_Unmarshal store "junk") fresh
       = Ret (Some e))
   /\ fii_details (run (StoreFIIDetails sample_Unmarshal store "junk") fresh)
      = Some []
   /\ run (StoreFIIDetails sample_Unmarshal store "junk") fresh <> fresh)
  /\ ((exists e,
          result (StoreFIIDetails sample_Unmarshal store "blank") fresh
          = Ret (Some e))
      /\ fii_details (run (StoreFIIDetails sample_Unmarshal store "blank") fresh)
         = Some []
      /\ run (StoreFIIDetails sample_Unmarshal store "blank") fresh <> fresh).
Proof.
  split.
  - apply (table_created_on_error sample_Unmarshal store "junk"
             zero_FIIDetails
             (Some (json_error
                      "invalid character 'x' looking for beginning of value"))
             fresh).
    + discriminate.
    + reflexivity.
    + reflexivity.
    + reflexivity.
    + left. discriminate.
  - apply (table_created_on_error sample_Unmarshal store "blank"
             (fund "   " "EFGH" "EFGH11") None fresh).
    + discriminate.
    + reflexivity.
    + reflexivity.
    + reflexivity.
    + right. reflexivity.
Defined.

Lemma roundtrip_when_codes_agree_witness :
  let w0 := run (StoreFIIDetails sample_Unmarshal store "abcd") fresh in
  let w1 := run (StoreFIIDetails sample_Unmarshal store "abcd") w0 in
  result (StoreFIIDetails sample_Unmarshal store "abcd") w0 = Ret None
  /\ result (CNPJ store "ABCD") w1 = Ret ("12.345.678/0001-90", None)
  /\ result (CNPJ store "ABCD11") w1 = Ret ("12.345.678/0001-90", None).
Proof.
  apply (roundtrip_when_codes_agree sample_Unmarshal store "abcd"
           (fund "12.345.678/0001-90" "ABCD" "ABCD11")
           (run (StoreFIIDetails sample_Unmarshal store "abcd") fresh)).
  - discriminate.
  - reflexivity.
  - reflexivity.
  - reflexivity.
  - reflexivity.
  - reflexivity.
  - simpl. intros r [<- | []]. simpl. split; split; reflexivity.
Defined.

(** C3, as stated, fails: CNPJ returns the first row under a code.  In a
    new database the payload "other" (CNPJ 01.234.567/0001-89, acronym ABCD,
    trading code ABCD11) is stored first.  StoreFIIDetails of the record
    with CNPJ 12.345.678/0001-90, acronym ABCD and trading code ABCD11 then
    returns nil and adds its row, and CNPJ of ABCD and of ABCD11 return
    01.234.567/0001-89, the fund stored first, not 12.345.678/0001-90. *)
Lemma roundtrip_fails_on_taken_codes :
  let w0 := run (StoreFIIDetails sample_Unmarshal store "other") fresh in
  let w1 := run (StoreFIIDetails sample_Unmarshal store "abcd") w0 in
  sample_Unmarshal "abcd" zero_FIIDetails
  = (fund "12.345.678/0001-90" "ABCD" "ABCD11", None)
  /\ result (StoreFIIDetails sample_Unmarshal store "abcd") w0 = Ret None
  /\ rows w1 = [mkRow "01.234.567/0001-89" "ABCD" "ABCD11";
                mkRow "12.345.678/0001-90" "ABCD" "ABCD11"]
  /\ result (CNPJ store "ABCD") w1 = Ret ("01.234.567/0001-89", None)
  /\ result (CNPJ store "ABCD11") w1 = Ret ("01.234.567/0001-89", None)
  /\ result (CNPJ store "ABCD") w1 <> Ret ("12.345.678/0001-90", None)
  /\ result (CNPJ store "ABCD11") w1 <> Ret ("12.345.678/0001-90", None).
Proof.
  vm_compute. repeat split; discriminate.
Qed.

(** A fund stored under other codes keeps them: the insert of the same CNPJ
    under ABCD and ABCD11 is ignored, the call returns nil all the same, and
    the lookups by the new codes find nothing. *)
Example ignored_insert_is_not_found :
  let w0 := run (StoreFIIDetails sample_Unmarshal store "wxyz") fresh in
  let w1 := run (StoreFIIDetails sample_Unmarshal store "abcd") w0 in
  result (StoreFIIDetails sample_Unmarshal store "abcd") w0 = Ret None
  /\ rows w1 = [mkRow "12.345.678/0001-90" "WXYZ" "WXYZ11"]
  /\ result (CNPJ store "ABCD") w1 = Ret ("", None)
  /\ result (CNPJ store "ABCD11") w1 = Ret ("", None).
Proof. vm_compute. repeat split. Qed.

Lemma store_trims_fields_witness :
  let w := mkWorld (Some [mkRow "98.765.432/0001-10" "WXYZ" "WXYZ11"]) [] [] in
  let w1 := run (StoreFIIDetails sample_Unmarshal store "abcd-padded") w in
  result (StoreFIIDetails sample_Unmarshal store "abcd-padded") w = Ret None
  /\ rows w1 = [mkRow "98.765.432/0001-10" "WXYZ" "WXYZ11";
                mkRow "12.345.678/0001-90" "ABCD" "ABCD11"]
  /\ where_eq col_cnpj "12.345.678/0001-90" (rows w1)
     = [mkRow "12.345.678/0001-90" "ABCD" "ABCD11"]
  /\ where_eq col_cnpj " 12.345.678/0001-90 " (rows w1) = []
  /\ result (CNPJ store "ABCD") w1 = Ret ("12.345.678/0001-90", None)
  /\ result (CNPJ store "ABCD11") w1 = Ret ("12.345.678/0001-90", None).
Proof.
  set (w := mkWorld (Some [mkRow "98.765.432/0001-10" "WXYZ" "WXYZ11"]) [] []).
  destruct (store_trims_fields sample_Unmarshal store "abcd-padded"
              (fund " 12.345.678/0001-90 " " ABCD " " ABCD11 ") w)
    as [_ [_ [Hstore Hpad]]].
  - discriminate.
  - reflexivity.
  - reflexivity.
  - destruct Hstore as [Hres _].
    + intros H. vm_compute in H. discriminate H.
    + destruct Hpad as [Hrows [Hq [Hq' [H4 H6]]]].
      * reflexivity.
      * reflexivity.
      * reflexivity.
      * intros w0 w1.
        split; [exact Hres |].
        split; [exact Hrows |].
        split; [exact Hq |].
        split; [exact Hq' |].
        split; [apply H4; reflexivity | apply H6; reflexivity].
Defined.

(* ===================================================================== *)
(** * Further properties of the package *)
(* ===================================================================== *)

(** ** trimFIIDetails *)

Lemma TrimLeft_fixed (s : list ascii) :
  strings.leading_space s = None -> strings.TrimLeft s = s.
Proof.
  unfold strings.TrimLeft. intros H.
  destruct (List.length s); simpl; [reflexivity |]. rewrite H. reflexivity.
Qed.

Lemma TrimRight_fixed (s : list ascii) :
  strings.trailing_space (rev s) = None -> strings.TrimRight s = s.
Proof.
  unfold strings.TrimRight. intros H.
  destruct (List.length s); simpl; [apply rev_involutive |].
  rewrite H. apply rev_involutive.
Qed.

(** A string without white space around it is left as it is. *)
Lemma TrimSpace_fixed (s : string) :
  strings.stripped s -> strings.TrimSpace s = s.
Proof.
  intros [Hl Hr]. unfold strings.TrimSpace.
  rewrite (TrimLeft_fixed _ Hl), (TrimRight_fixed _ Hr).
  apply string_of_list_ascii_of_string.
Qed.

Lemma TrimSpace_idempotent (s : string) :
  strings.TrimSpace (strings.TrimSpace s) = strings.TrimSpace s.
Proof. apply TrimSpace_fixed, TrimSpace_stripped. Qed.

(** X1. trimFIIDetails is idempotent, it touches CNPJ, Acronym and
    TradingCode only, and a record whose three fields have no white space
    around them is returned as it is. *)
Theorem trimFIIDetails_idempotent (f : FIIDetails) :
  trimFIIDetails (trimFIIDetails f) = trimFIIDetails f
  /\ ShareHolder (trimFIIDetails f) = ShareHolder f
  /\ DetailFund.set_CNPJ "" (DetailFund.set_Acronym ""
        (DetailFund.set_TradingCode "" (DetailFund (trimFIIDetails f))))
     = DetailFund.set_CNPJ "" (DetailFund.set_Acronym ""
         (DetailFund.set_TradingCode "" (DetailFund f)))
  /\ (strings.stripped (DetailFund.CNPJ (DetailFund f)) ->
      strings.stripped (DetailFund.Acronym (DetailFund f)) ->
      strings.stripped (DetailFund.TradingCode (DetailFund f)) ->
      trimFIIDetails f = f).
Proof.
  destruct f as [x sh]. destruct x.
  cbv beta iota zeta
      delta [trimFIIDetails with_DetailFund DetailFund ShareHolder
             DetailFund.set_CNPJ DetailFund.set_Acronym
             DetailFund.set_TradingCode
             DetailFund.Acronym DetailFund.TradingName
             DetailFund.TradingCode DetailFund.TradingCodeOthers
             DetailFund.CNPJ DetailFund.Classification DetailFund.WebSite
             DetailFund.FundAddress DetailFund.FundPhoneNumberDDD
             DetailFund.FundPhoneNumber DetailFund.FundPhoneNumberFax
             DetailFund.PositionManager DetailFund.ManagerName
             DetailFund.CompanyAddress DetailFund.CompanyPhoneNumberDDD
             DetailFund.CompanyPhoneNumber DetailFund.CompanyPhoneNumberFax
             DetailFund.CompanyEmail DetailFund.CompanyName
             DetailFund.QuotaCount DetailFund.QuotaDateApproved
             DetailFund.Codes DetailFund.CodesOther DetailFund.Segment].
  split; [| split; [| split]].
  - rewrite !TrimSpace_idempotent. reflexivity.
  - reflexivity.
  - reflexivity.
  - intros Hc Ha Ht.
    rewrite (TrimSpace_fixed _ Hc), (TrimSpace_fixed _ Ha),
      (TrimSpace_fixed _ Ht).
    reflexivity.
Qed.

Lemma trimFIIDetails_idempotent_witness :
  trimFIIDetails (fund "12.345.678/0001-90" "ABCD" "ABCD11")
  = fund "12.345.678/0001-90" "ABCD" "ABCD11".
Proof.
  apply (trimFIIDetails_idempotent (fund "12.345.678/0001-90" "ABCD" "ABCD11")).
  - split; reflexivity.
  - split; reflexivity.
  - split; reflexivity.
Defined.

(** ** The lookups *)

Lemma hd_error_where_eq (k : Column) (v : string) (t : list Row) (r : Row) :
  hd_error (where_eq k v t) = Some r -> In r t /\ column k r = v.
Proof.
  intros H.
  assert (Hin : In r (where_eq k v t)).
  { destruct (where_eq k v t) as [| r' l]; [discriminate |].
    injection H as ->. left. reflexivity. }
  apply filter_In in Hin as [Hin Hr]. apply String.eqb_eq in Hr. tauto.
Qed.

(** Case analysis along a lookup: the row found first, then the rest. *)
Ltac lookup_cases :=
  repeat
    (simpl;
     match goal with
     | |- context [hd_error ?l] => destruct (hd_error l) eqn:?
     | |- context [match ?x with _ => _ end] => is_var x; destruct x
     | |- context [if ?b then _ else _] => destruct b eqn:?
     end);
  simpl.

Ltac same_execs :=
  unfold execs; simpl; rewrite ?filter_app; simpl; rewrite ?app_nil_r;
  reflexivity.

(** X2. CNPJ and SelectFIIDetails only read: whatever the handle, the code
    and the engine do, the table after the call is the table before it, no
    statement is executed, and the engine is called once at most. *)
Theorem lookups_only_read (fii : FIIStore) (code : string) (w : World) :
  (fii_details (run (CNPJ fii code) w) = fii_details w
   /\ execs (run (CNPJ fii code) w) = execs w
   /\ exists l, trace (run (CNPJ fii code) w) = (trace w ++ l)%list
                /\ List.length l <= 1)
  /\ (fii_details (run (SelectFIIDetails fii code) w) = fii_details w
      /\ execs (run (SelectFIIDetails fii code) w) = execs w
      /\ exists l,
          trace (run (SelectFIIDetails fii code) w) = (trace w ++ l)%list
          /\ List.length l <= 1).
Proof.
  destruct w as [tbl fl tr].
  assert (Hnil : forall l : list IO, l = (l ++ [])%list)
    by (intros l; rewrite app_nil_r; reflexivity).
  destruct fii as [[[] |]].
  - split.
    + unfold CNPJ, run. run_go.
      run_cases;
        (split; [reflexivity |]); (split; [same_execs |]);
        first [ eexists; split; [reflexivity | simpl; lia]
              | exists []; split; [apply Hnil | simpl; lia] ].
    + unfold SelectFIIDetails, run. run_go.
      run_cases;
        (split; [reflexivity |]); (split; [same_execs |]);
        first [ eexists; split; [reflexivity | simpl; lia]
              | exists []; split; [apply Hnil | simpl; lia] ].
  - split; (split; [reflexivity |]); (split; [reflexivity |]);
      exists []; (split; [apply Hnil | simpl; lia]).
Qed.

(** X3. The two lookups agree: on the same database and code, CNPJ returns
    the CNPJ of the record that SelectFIIDetails returns, the empty string
    where SelectFIIDetails returns no record, and the same error, except
    that sql.ErrNoRows becomes nil. *)
Theorem lookups_agree (fii : FIIStore) (code : string) (w : World) :
  result (CNPJ fii code) w
  = match result (SelectFIIDetails fii code) w with
    | Ret r => Ret (CNPJ_of_details r)
    | Panic msg => Panic msg
    end.
Proof.
  destruct w as [tbl fl tr].
  destruct fii as [[[] |]]; [| reflexivity].
  unfold CNPJ, SelectFIIDetails, CNPJ_of_details, result. run_go.
  lookup_cases; first [reflexivity | simpl in *; congruence].
Qed.

(** X4. SelectFIIDetails returns a record or an error, never both and never
    neither; the record it returns carries the code asked for (as Acronym
    for 4 bytes, as TradingCode for 6) and its three fields are a row of
    the table. *)
Theorem SelectFIIDetails_answer
        (fii : FIIStore) (code : string) (w : World)
        (p : option FIIDetails) (e : option error) :
  result (SelectFIIDetails fii code) w = Ret (p, e) ->
  (p = None <-> e <> None)
  /\ (forall d, p = Some d ->
        (len code = 4 /\ DetailFund.Acronym (DetailFund d) = code
         \/ len code = 6 /\ DetailFund.TradingCode (DetailFund d) = code)
        /\ In (mkRow (DetailFund.CNPJ (DetailFund d))
                     (DetailFund.Acronym (DetailFund d))
                     (DetailFund.TradingCode (DetailFund d)))
              (rows w)).
Proof.
  destruct w as [tbl fl tr].
  destruct fii as [[[] |]].
  - unfold SelectFIIDetails, result, rows. run_go.
    lookup_cases; intros H; injection H as <- <-;
      (split; [split; [discriminate || congruence | congruence] |]);
      intros d Hd; try discriminate; injection Hd as <-; simpl;
      match goal with
      | Hr : hd_error (where_eq _ _ _) = Some ?r |- _ =>
          apply hd_error_where_eq in Hr as [Hin Hcol]; simpl in Hcol;
          destruct r as [rc ra rt]; simpl in *
      end;
      (split; [| exact Hin]);
      first [ left; split; [apply Nat.eqb_eq; assumption | exact Hcol]
            | right; split; [apply Nat.eqb_eq; assumption | exact Hcol] ].
  - simpl. intros H. injection H as <- <-.
    split; [split; [discriminate | reflexivity] | discriminate].
Qed.

Lemma SelectFIIDetails_answer_witness :
  (Some (fund "12.345.678/0001-90" "ABCD" "ABCD11") = None
   <-> @None error <> None)
  /\ (forall d,
         Some (fund "12.345.678/0001-90" "ABCD" "ABCD11") = Some d ->
         (len "ABCD11" = 4 /\ DetailFund.Acronym (DetailFund d) = "ABCD11"
          \/ len "ABCD11" = 6
             /\ DetailFund.TradingCode (DetailFund d) = "ABCD11")
         /\ In (mkRow (DetailFund.CNPJ (DetailFund d))
                      (DetailFund.Acronym (DetailFund d))
                      (DetailFund.TradingCode (DetailFund d)))
               [mkRow "12.345.678/0001-90" "ABCD" "ABCD11"]).
Proof.
  apply (SelectFIIDetails_answer store "ABCD11"
           (mkWorld (Some [mkRow "12.345.678/0001-90" "ABCD" "ABCD11"]) [] [])).
  reflexivity.
Defined.

(** The one way for CNPJ to return a CNPJ: the handle is set, the query
    runs, and the first row under the code has it. *)
Lemma CNPJ_found_inv (fii : FIIStore) (code c : string) (w : World) :
  result (CNPJ fii code) w = Ret (c, None) -> c <> "" ->
  db fii <> None /\ next_call_ok w
  /\ exists t r,
      fii_details w = Some t /\ cnpj r = c
      /\ (len code = 4 /\ hd_error (where_eq col_acronym code t) = Some r
          \/ len code = 6
             /\ hd_error (where_eq col_trading_code code t) = Some r).
Proof.
  destruct w as [tbl fl tr].
  destruct fii as [[[] |]]; [| discriminate].
  unfold CNPJ, result, next_call_ok. run_go.
  lookup_cases; intros H Hc; injection H as <-;
    try congruence; try discriminate;
    (split; [discriminate |]); (split; [reflexivity |]);
    match goal with
    | Hr : hd_error (where_eq _ _ ?t) = Some ?r |- _ =>
        exists t, r; split; [reflexivity |]; split; [reflexivity |]
    end;
    first [ left; split; [apply Nat.eqb_eq; assumption | assumption]
          | right; split; [apply Nat.eqb_eq; assumption | assumption] ].
Qed.

(** X5. A CNPJ that CNPJ returns is stored: when the result is not empty,
    it is the cnpj of a row of the table, the first one that has the code as
    its acronym (4 bytes) or as its trading code (6 bytes). *)
Theorem CNPJ_answer_is_stored (fii : FIIStore) (code c : string) (w : World) :
  result (CNPJ fii code) w = Ret (c, None) -> c <> "" ->
  exists r,
    In r (rows w) /\ cnpj r = c
    /\ (len code = 4 /\ acronym r = code
        /\ hd_error (where_eq col_acronym code (rows w)) = Some r
        \/ len code = 6 /\ trading_code r = code
           /\ hd_error (where_eq col_trading_code code (rows w)) = Some r).
Proof.
  intros H Hc.
  destruct (CNPJ_found_inv fii code c w H Hc)
    as [_ [_ [t [r [Ht [Hr Hcode]]]]]].
  exists r. unfold rows. rewrite Ht.
  destruct Hcode as [[L Hhd] | [L Hhd]];
    destruct (hd_error_where_eq _ _ _ _ Hhd) as [Hin Hcol];
    (split; [exact Hin |]); (split; [exact Hr |]).
  - left. repeat split; assumption.
  - right. repeat split; assumption.
Qed.

Lemma CNPJ_answer_is_stored_witness :
  exists r,
    In r [mkRow "12.345.678/0001-90" "ABCD" "ABCD11"]
    /\ cnpj r = "12.345.678/0001-90"
    /\ (len "ABCD" = 4 /\ acronym r = "ABCD"
        /\ hd_error (where_eq col_acronym "ABCD"
                       [mkRow "12.345.678/0001-90" "ABCD" "ABCD11"]) = Some r
        \/ len "ABCD" = 6 /\ trading_code r = "ABCD"
           /\ hd_error (where_eq col_trading_code "ABCD"
                          [mkRow "12.345.678/0001-90" "ABCD" "ABCD11"])
              = Some r).
Proof.
  apply (CNPJ_answer_is_stored store "ABCD" "12.345.678/0001-90"
           (mkWorld (Some [mkRow "12.345.678/0001-90" "ABCD" "ABCD11"]) [] [])).
  - reflexivity.
  - discriminate.
Defined.

(** X6. An error of CNPJ comes with the empty string, and it is never
    sql.ErrNoRows, even when the engine raises it: that error is always
    turned into an empty result and a nil error. *)
Theorem CNPJ_error_is_empty
        (fii : FIIStore) (code s : string) (e : error) (w : World) :
  result (CNPJ fii code) w = Ret (s, Some e) ->
  s = "" /\ e <> sql_ErrNoRows.
Proof.
  destruct w as [tbl fl tr].
  destruct fii as [[[] |]].
  - unfold CNPJ, result. run_go.
    lookup_cases; intros H; inversion H; subst;
      (split; [reflexivity |]); try discriminate;
      apply error_eqb_neq;
      match goal with
      | Hb : negb ?b = true |- _ => destruct b; [discriminate | reflexivity]
      end.
  - simpl. intros H. injection H as <- <-. split; [reflexivity | discriminate].
Qed.

Lemma CNPJ_error_is_empty_witness :
  "" = "" /\ driver_error "database is locked" <> sql_ErrNoRows.
Proof.
  apply (CNPJ_error_is_empty store "ABCD" ""
           (driver_error "database is locked")
           (mkWorld (Some [mkRow "12.345.678/0001-90" "ABCD" "ABCD11"])
                    [Some (driver_error "database is locked")] [])).
  reflexivity.
Defined.

Example CNPJ_absorbs_ErrNoRows :
  result (CNPJ store "ABCD")
         (mkWorld (Some [mkRow "12.345.678/0001-90" "ABCD" "ABCD11"])
                  [Some sql_ErrNoRows] [])
  = Ret ("", None).
Proof. reflexivity. Qed.

(** ** StoreFIIDetails *)

Lemma SelectFIIDetails_first_row (fii : FIIStore) (code : string) (w : World)
      (t : list Row) (r : Row) :
  db fii <> None ->
  fii_details w = Some t -> next_call_ok w ->
  len code = 4 /\ hd_error (where_eq col_acronym code t) = Some r
  \/ len code = 6 /\ hd_error (where_eq col_trading_code code t) = Some r ->
  result (SelectFIIDetails fii code) w = Ret (Some (record_of r), None).
Proof.
  intros Hdb Ht Hf H. apply set_handle in Hdb. subst fii.
  destruct w as [tbl fl tr]. unfold next_call_ok in Hf. simpl in *. subst tbl.
  destruct H as [[L H] | [L H]]; unfold SelectFIIDetails, result; rewrite L;
    run_go; destruct fl as [| [e |] fl]; simpl in *; try discriminate;
    rewrite H; reflexivity.
Qed.

Section StoreCoverage.

Variable json_Unmarshal : string -> FIIDetails -> FIIDetails * option error.

Local Abbreviation Store := (StoreFIIDetails json_Unmarshal).

(** What a call does to the table: nothing, or it creates it empty, or it
    adds the trimmed row of a payload that decodes, with a CNPJ that is not
    empty and not yet in the table. *)
Lemma Store_table (fii : FIIStore) (stream : string) (w : World) :
  (fii_details (run (Store fii stream) w) = fii_details w
   \/ fii_details w = None
      /\ fii_details (run (Store fii stream) w) = Some [])
  \/ exists d,
      json_Unmarshal stream zero_FIIDetails = (d, None)
      /\ cnpj (trimmed d) <> ""
      /\ has_cnpj (cnpj (trimmed d)) (rows w) = false
      /\ result (Store fii stream) w = Ret None
      /\ fii_details (run (Store fii stream) w)
         = Some (rows w ++ [trimmed d])%list.
Proof.
  destruct w as [tbl fl tr].
  destruct fii as [[[] |]]; [| left; left; reflexivity].
  unfold StoreFIIDetails, run, result, rows, trimmed. run_go.
  run_cases;
    try (left; left; reflexivity);
    try (left; right; split; reflexivity);
    unfold insert_or_ignore;
    match goal with
    | |- context [if ?b then _ else _] =>
        destruct b eqn:Hc;
        [ first [left; left; reflexivity | left; right; split; reflexivity]
        | right; eexists; split; [reflexivity |];
          split; [apply String.eqb_neq; assumption |];
          split; [exact Hc |]; split; reflexivity ]
    end.
Qed.

(** X7. When StoreFIIDetails returns nil, the payload did decode, its
    trimmed CNPJ is not empty, and a row with that CNPJ is in the table: the
    trimmed row of the payload at the end of the table, or the row that held
    the CNPJ before, untouched. *)
Theorem Store_nil_means_stored
        (fii : FIIStore) (stream : string) (w : World) :
  result (Store fii stream) w = Ret None ->
  db fii <> None
  /\ exists d,
      json_Unmarshal stream zero_FIIDetails = (d, None)
      /\ cnpj (trimmed d) <> ""
      /\ fii_details (run (Store fii stream) w)
         = Some (insert_or_ignore (trimmed d) (rows w))
      /\ has_cnpj (cnpj (trimmed d)) (rows (run (Store fii stream) w)) = true.
Proof.
  destruct w as [tbl fl tr].
  destruct fii as [[[] |]]; [| discriminate].
  unfold StoreFIIDetails, run, result, rows, trimmed. run_go.
  run_cases; intros H; try discriminate;
    (split; [discriminate |]);
    eexists; (split; [reflexivity |]);
    (split; [apply String.eqb_neq; assumption |]);
    (split; [reflexivity |]);
    first [ match goal with
            | |- has_cnpj _ (insert_or_ignore ?r ?t) = true =>
                apply (has_cnpj_insert r t)
            end
          | rewrite String.eqb_refl; reflexivity ].
Qed.


(** X8. When StoreFIIDetails returns an error, whichever it is, no row was
    added, changed or removed; at most the table was created, empty. *)
Theorem Store_error_keeps_rows
        (fii : FIIStore) (stream : string) (e : error) (w : World) :
  result (Store fii stream) w = Ret (Some e) ->
  rows (run (Store fii stream) w) = rows w
  /\ (fii_details (run (Store fii stream) w) = fii_details w
      \/ fii_details w = None
         /\ fii_details (run (Store fii stream) w) = Some []).
Proof.
  intros H.
  destruct (Store_table fii stream w) as [[E | [E1 E2]] | [d [_ [_ [_ [R _]]]]]].
  - split; [unfold rows; rewrite E; reflexivity | left; exact E].
  - split; [unfold rows; rewrite E1, E2; reflexivity | right; tauto].
  - rewrite R in H. discriminate.
Qed.


(** X9. A payload that json.Unmarshal rejects is answered with that error
    wrapped as [json unmarshal: <cause>], whatever the decoder left in the
    record: nothing is inserted and no statement is executed.  (On a set
    handle, with the table there or created.) *)
Theorem Store_wraps_decode_error
        (fii : FIIStore) (stream : string) (d : FIIDetails) (e : error)
        (w : World) :
  db fii <> None ->
  fii_details w <> None \/ next_call_ok w ->
  json_Unmarshal stream zero_FIIDetails = (d, Some e) ->
  result (Store fii stream) w = Ret (Some (errors_Wrap e "json unmarshal"))
  /\ Error (errors_Wrap e "json unmarshal") = "json unmarshal: " ++ Error e
  /\ rows (run (Store fii stream) w) = rows w
  /\ execs (run (Store fii stream) w) = execs w.
Proof.
  intros Hdb Hok Hd.
  pose proof (Store_bad_payload json_Unmarshal fii stream d e w Hdb Hok Hd)
    as E.
  unfold result, run. rewrite E. simpl.
  split; [reflexivity |]. split; [reflexivity |].
  unfold rows, execs.
  destruct (fii_details w) as [t |]; simpl;
    rewrite filter_app; simpl; rewrite app_nil_r; split; reflexivity.
Qed.

(** X10. An error of the engine is returned as it is.  When the table is
    missing and createTable fails with [e], StoreFIIDetails returns [e] for
    every payload, the table is still missing and nothing else reaches the
    engine.  When the table is there and the insert of a valid payload
    fails with [e], StoreFIIDetails returns [e] and the table is
    unchanged. *)
Theorem Store_returns_engine_error
        (fii : FIIStore) (stream : string) (e : error) (w : World) :
  db fii <> None ->
  hd None (faults w) = Some e ->
  (fii_details w = None ->
   Store fii stream w
   = (Ret (Some e),
      mkWorld None (tl (faults w))
              (trace w ++ [io_hasTable "fii_details";
                           io_createTable "fii_details"])))
  /\ (forall d,
         fii_details w <> None ->
         json_Unmarshal stream zero_FIIDetails = (d, None) ->
         cnpj (trimmed d) <> "" ->
         result (Store fii stream) w = Ret (Some e)
         /\ fii_details (run (Store fii stream) w) = fii_details w).
Proof.
  intros Hdb Hf. apply set_handle in Hdb. subst fii.
  destruct w as [tbl fl tr]. simpl in Hf.
  destruct fl as [| [e' |] fl]; simpl in Hf; try discriminate.
  injection Hf as ->.
  split.
  - simpl. intros ->. unfold StoreFIIDetails. run_go.
    rewrite <- app_assoc. reflexivity.
  - intros d Ht Hd Hc. simpl in Ht.
    destruct tbl as [t |]; [| congruence].
    apply String.eqb_neq in Hc. unfold trimmed in Hc. simpl in Hc.
    unfold StoreFIIDetails, result, run. run_go.
    rewrite Hd, Hc. simpl. split; reflexivity.
Qed.


(** X11. Store, then fetch: on a set handle and a healthy engine, after
    StoreFIIDetails of a payload whose trimmed CNPJ is not empty and not in
    the table, SelectFIIDetails by the trimmed acronym (when it has 4 bytes
    and no row has it) and by the trimmed trading code (when it has 6 bytes
    and no row has it) returns the record of the three trimmed fields. *)
Theorem Store_then_SelectFIIDetails
        (fii : FIIStore) (stream : string) (d : FIIDetails) (w : World) :
  db fii <> None -> healthy w ->
  json_Unmarshal stream zero_FIIDetails = (d, None) ->
  cnpj (trimmed d) <> "" ->
  has_cnpj (cnpj (trimmed d)) (rows w) = false ->
  (len (acronym (trimmed d)) = 4 ->
   where_eq col_acronym (acronym (trimmed d)) (rows w) = [] ->
   result (SelectFIIDetails fii (acronym (trimmed d)))
          (run (Store fii stream) w)
   = Ret (Some (record_of (trimmed d)), None))
  /\ (len (trading_code (trimmed d)) = 6 ->
      where_eq col_trading_code (trading_code (trimmed d)) (rows w) = [] ->
      result (SelectFIIDetails fii (trading_code (trimmed d)))
             (run (Store fii stream) w)
      = Ret (Some (record_of (trimmed d)), None)).
Proof.
  intros Hdb Hh Hd Hc Hnew.
  pose proof (Store_healthy json_Unmarshal fii stream d w Hdb Hh Hd Hc) as E.
  unfold run. rewrite E. simpl.
  rewrite (insert_or_ignore_absent _ _ Hnew).
  split; intros L Hnone.
  - apply (SelectFIIDetails_first_row fii _ _ (rows w ++ [trimmed d])
             (trimmed d));
      [exact Hdb | reflexivity | reflexivity |].
    left. split; [exact L |].
    rewrite where_eq_app, Hnone. simpl.
    rewrite String.eqb_refl. reflexivity.
  - apply (SelectFIIDetails_first_row fii _ _ (rows w ++ [trimmed d])
             (trimmed d));
      [exact Hdb | reflexivity | reflexivity |].
    right. split; [exact L |].
    rewrite where_eq_app, Hnone. simpl.
    rewrite String.eqb_refl. reflexivity.
Qed.

(** X12. A code that resolves keeps its answer: when CNPJ returns a CNPJ
    that is not empty for a code, it returns the same CNPJ for that code
    after any call of StoreFIIDetails, whatever the payload and whether the
    call fails or not (the engine letting the later query run). *)
Theorem CNPJ_answer_is_stable
        (fii : FIIStore) (stream code c : string) (w : World) :
  result (CNPJ fii code) w = Ret (c, None) -> c <> "" ->
  next_call_ok (run (Store fii stream) w) ->
  result (CNPJ fii code) (run (Store fii stream) w) = Ret (c, None).
Proof.
  intros H Hc Hok.
  destruct (CNPJ_found_inv fii code c w H Hc)
    as [Hdb [_ [t [r [Ht [Hr Hcode]]]]]].
  assert (Hrows : rows w = t) by (unfold rows; rewrite Ht; reflexivity).
  assert (Hgrow : exists u,
             fii_details (run (Store fii stream) w) = Some (t ++ u)%list).
  { destruct (Store_table fii stream w)
      as [[E | [E _]] | [d [_ [_ [_ [_ E]]]]]].
    - exists []. rewrite E, Ht, app_nil_r. reflexivity.
    - congruence.
    - exists [trimmed d]. rewrite E, Hrows. reflexivity. }
  destruct Hgrow as [u Hu].
  assert (Hfirst : forall k,
             hd_error (where_eq k code t) = Some r ->
             hd_error (where_eq k code (t ++ u)) = Some r).
  { intros k Hk. rewrite where_eq_app.
    destruct (where_eq k code t); [discriminate | exact Hk]. }
  rewrite <- Hr.
  apply (CNPJ_first_row fii code _ (t ++ u) r Hdb Hu Hok).
  destruct Hcode as [[L Hhd] | [L Hhd]]; [left | right];
    (split; [exact L | apply Hfirst; exact Hhd]).
Qed.

Lemma trimmed_clean (d : FIIDetails) :
  cnpj (trimmed d) <> "" -> clean_row (trimmed d).
Proof.
  intros Hc. unfold clean_row, trimmed. simpl.
  split; [exact Hc |].
  split; [| split]; apply TrimSpace_stripped.
Qed.

(** The rows after a call: the rows before it, with at most the trimmed
    row of a valid payload at the end. *)
Lemma Store_rows_step (fii : FIIStore) (stream : string) (w : World) :
  rows (run (Store fii stream) w) = rows w
  \/ exists d,
      cnpj (trimmed d) <> ""
      /\ has_cnpj (cnpj (trimmed d)) (rows w) = false
      /\ rows (run (Store fii stream) w) = (rows w ++ [trimmed d])%list.
Proof.
  destruct (Store_table fii stream w)
    as [[E | [E1 E2]] | [d [_ [Hc [Hnew [_ E]]]]]].
  - left. unfold rows. rewrite E. reflexivity.
  - left. unfold rows. rewrite E1, E2. reflexivity.
  - right. exists d. split; [exact Hc |]. split; [exact Hnew |].
    unfold rows at 1. rewrite E. reflexivity.
Qed.

Lemma Store_clean (fii : FIIStore) (stream : string) (w : World) :
  clean_table (rows w) -> clean_table (rows (run (Store fii stream) w)).
Proof.
  intros [Hu Hall].
  destruct (Store_rows_step fii stream w) as [E | [d [Hc [Hnew E]]]];
    rewrite E.
  - split; assumption.
  - split.
    + rewrite <- (insert_or_ignore_absent _ _ Hnew).
      apply insert_or_ignore_unique. exact Hu.
    + apply Forall_app. split; [exact Hall |].
      constructor; [apply trimmed_clean; exact Hc | constructor].
Qed.

(** X13. The table stays clean under any feed: starting from a table whose
    rows have distinct, non-empty CNPJs and no white space around their
    fields (an empty or missing table is one), every run of StoreFIIDetails
    over a list of payloads, valid or not, with the engine failing or not,
    ends in such a table, and it only adds rows after the ones it found. *)
Theorem store_all_keeps_table_clean
        (fii : FIIStore) (streams : list string) (w : World) :
  clean_table (rows w) ->
  clean_table (rows (store_all json_Unmarshal fii streams w))
  /\ exists added,
      rows (store_all json_Unmarshal fii streams w) = (rows w ++ added)%list
      /\ List.length added <= List.length streams.
Proof.
  revert w. induction streams as [| stream rest IH]; intros w Hw; simpl.
  - split; [exact Hw |]. exists []. rewrite app_nil_r. split; [reflexivity |].
    apply le_n.
  - destruct (IH (run (Store fii stream) w) (Store_clean fii stream w Hw))
      as [Hclean [added [Hrows Hlen]]].
    split; [exact Hclean |].
    rewrite Hrows.
    assert (Hstep : exists u,
               rows (run (Store fii stream) w) = (rows w ++ u)%list
               /\ List.length u <= 1).
    { destruct (Store_rows_step fii stream w) as [E | [d [_ [_ E]]]].
      - exists []. rewrite E, app_nil_r. split; [reflexivity | simpl; lia].
      - exists [trimmed d]. rewrite E. split; [reflexivity | simpl; lia]. }
    destruct Hstep as [u [Hu Hlu]].
    exists (u ++ added)%list. rewrite Hu, <- app_assoc.
    split; [reflexivity |]. rewrite length_app. lia.
Qed.

(** X14. What reaches the engine has a constant text: in every call of
    StoreFIIDetails, CNPJ and SelectFIIDetails, the calls added to the trace
    name the table fii_details or carry one of the five statements of the
    package, character for character; the payload and the code only travel
    as arguments. *)
Theorem engine_sees_constant_texts
        (fii : FIIStore) (stream code : string) (w : World) :
  (exists l, trace (run (Store fii stream) w) = (trace w ++ l)%list
             /\ forallb constant_text l = true)
  /\ (exists l, trace (run (CNPJ fii code) w) = (trace w ++ l)%list
                /\ forallb constant_text l = true)
  /\ (exists l,
         trace (run (SelectFIIDetails fii code) w) = (trace w ++ l)%list
         /\ forallb constant_text l = true).
Proof.
  destruct w as [tbl fl tr].
  assert (Hnil : exists l : list IO,
             tr = (tr ++ l)%list /\ forallb constant_text l = true)
    by (exists []; rewrite app_nil_r; split; reflexivity).
  destruct fii as [[[] |]]; [| repeat split; exact Hnil].
  split; [| split].
  - unfold StoreFIIDetails, run. run_go.
    run_cases; rewrite <- ?app_assoc; simpl;
      eexists; (split; [reflexivity |]); reflexivity.
  - unfold CNPJ, run. run_go.
    run_cases;
      first [ exact Hnil | eexists; (split; [reflexivity |]); reflexivity ].
  - unfold SelectFIIDetails, run. run_go.
    run_cases;
      first [ exact Hnil | eexists; (split; [reflexivity |]); reflexivity ].
Qed.

End StoreCoverage.

Lemma Store_nil_means_stored_witness :
  db store <> None
  /\ exists d,
      sample_Unmarshal "abcd-padded" zero_FIIDetails = (d, None)
      /\ cnpj (trimmed d) <> ""
      /\ fii_details
           (run (StoreFIIDetails sample_Unmarshal store "abcd-padded") fresh)
         = Some (insert_or_ignore (trimmed d) (rows fresh))
      /\ has_cnpj (cnpj (trimmed d))
                  (rows (run (StoreFIIDetails sample_Unmarshal store
                                              "abcd-padded") fresh))
         = true.
Proof.
  apply (Store_nil_means_stored sample_Unmarshal store "abcd-padded" fresh).
  reflexivity.
Defined.

Lemma Store_error_keeps_rows_witness :
  let w := mkWorld (Some [mkRow "12.345.678/0001-90" "ABCD" "ABCD11"])
                   [Some (driver_error "database is locked")] [] in
  rows (run (StoreFIIDetails sample_Unmarshal store "other") w) = rows w
  /\ (fii_details (run (StoreFIIDetails sample_Unmarshal store "other") w)
      = fii_details w
      \/ fii_details w = None
         /\ fii_details (run (StoreFIIDetails sample_Unmarshal store "other") w)
            = Some []).
Proof.
  apply (Store_error_keeps_rows sample_Unmarshal store "other"
           (driver_error "database is locked")
           (mkWorld (Some [mkRow "12.345.678/0001-90" "ABCD" "ABCD11"])
                    [Some (driver_error "database is locked")] [])).
  reflexivity.
Defined.

Lemma Store_returns_engine_error_witness :
  StoreFIIDetails sample_Unmarshal store "abcd"
                  (mkWorld None [Some (driver_error "disk I/O error")] [])
  = (Ret (Some (driver_error "disk I/O error")),
     mkWorld None []
             [io_hasTable "fii_details"; io_createTable "fii_details"])
  /\ (result (StoreFIIDetails sample_Unmarshal store "abcd")
             (mkWorld (Some []) [Some (driver_error "database is locked")] [])
      = Ret (Some (driver_error "database is locked"))
      /\ fii_details
           (run (StoreFIIDetails sample_Unmarshal store "abcd")
                (mkWorld (Some []) [Some (driver_error "database is locked")]
                         []))
         = Some []).
Proof.
  split.
  - apply (Store_returns_engine_error sample_Unmarshal store "abcd"
             (driver_error "disk I/O error")
             (mkWorld None [Some (driver_error "disk I/O error")] [])).
    + discriminate.
    + reflexivity.
    + reflexivity.
  - apply (proj2 (Store_returns_engine_error sample_Unmarshal store "abcd"
                    (driver_error "database is locked")
                    (mkWorld (Some [])
                             [Some (driver_error "database is locked")] [])
                    ltac:(discriminate) eq_refl)
                 (fund "12.345.678/0001-90" "ABCD" "ABCD11")).
    + discriminate.
    + reflexivity.
    + intros H. vm_compute in H. discriminate H.
Defined.

Lemma Store_wraps_decode_error_witness :
  result (StoreFIIDetails sample_Unmarshal store "junk") fresh
  = Ret (Some (errors_Wrap
                 (json_error
                    "invalid character 'x' looking for beginning of value")
                 "json unmarshal"))
  /\ Error (errors_Wrap
              (json_error
                 "invalid character 'x' looking for beginning of value")
              "json unmarshal")
     = "json unmarshal: "
         ++ Error (json_error
                     "invalid character 'x' looking for beginning of value")
  /\ rows (run (StoreFIIDetails sample_Unmarshal store "junk") fresh)
     = rows fresh
  /\ execs (run (StoreFIIDetails sample_Unmarshal store "junk") fresh)
     = execs fresh.
Proof.
  apply (Store_wraps_decode_error sample_Unmarshal store "junk"
           zero_FIIDetails
           (json_error "invalid character 'x' looking for beginning of value")
           fresh).
  - discriminate.
  - right. reflexivity.
  - reflexivity.
Defined.

Lemma Store_then_SelectFIIDetails_witness :
  let w := mkWorld (Some [mkRow "01.234.567/0001-89" "WXYZ" "WXYZ11"]) [] [] in
  let w1 := run (StoreFIIDetails sample_Unmarshal store "abcd-padded") w in
  result (SelectFIIDetails store "ABCD") w1
  = Ret (Some (fund "12.345.678/0001-90" "ABCD" "ABCD11"), None)
  /\ result (SelectFIIDetails store "ABCD11") w1
     = Ret (Some (fund "12.345.678/0001-90" "ABCD" "ABCD11"), None).
Proof.
  destruct (Store_then_SelectFIIDetails sample_Unmarshal store "abcd-padded"
              (fund " 12.345.678/0001-90 " " ABCD " " ABCD11 ")
              (mkWorld (Some [mkRow "01.234.567/0001-89" "WXYZ" "WXYZ11"])
                       [] []))
    as [H4 H6].
  - discriminate.
  - reflexivity.
  - reflexivity.
  - intros H. vm_compute in H. discriminate H.
  - reflexivity.
  - split; [apply H4 | apply H6]; reflexivity.
Defined.

Lemma CNPJ_answer_is_stable_witness :
  let w := run (StoreFIIDetails sample_Unmarshal store "abcd") fresh in
  result (CNPJ store "ABCD")
         (run (StoreFIIDetails sample_Unmarshal store "other") w)
  = Ret ("12.345.678/0001-90", None).
Proof.
  apply (CNPJ_answer_is_stable sample_Unmarshal store "other" "ABCD"
           "12.345.678/0001-90"
           (run (StoreFIIDetails sample_Unmarshal store "abcd") fresh)).
  - reflexivity.
  - discriminate.
  - reflexivity.
Defined.

Lemma store_all_keeps_table_clean_witness :
  let feed := ["abcd"; "junk"; "wxyz"; "other"; "blank"; "abcd-padded"] in
  clean_table (rows (store_all sample_Unmarshal store feed fresh))
  /\ exists added,
      rows (store_all sample_Unmarshal store feed fresh)
      = (rows fresh ++ added)%list
      /\ List.length added <= List.length feed.
Proof.
  apply (store_all_keeps_table_clean sample_Unmarshal store
           ["abcd"; "junk"; "wxyz"; "other"; "blank"; "abcd-padded"] fresh).
  split; constructor.
Defined.

Example store_all_feed :
  rows (store_all sample_Unmarshal store
                  ["abcd"; "junk"; "wxyz"; "other"; "blank"; "abcd-padded"]
                  fresh)
  = [mkRow "12.345.678/0001-90" "ABCD" "ABCD11";
     mkRow "01.234.567/0001-89" "ABCD" "ABCD11"].
Proof. reflexivity. Qed.
